(** * Manticore workers: a shallow embedding of [manticore/core/worker.py]

    The file follows the source top to bottom: the constants, the [Worker]
    run-loop, the log capture daemon, the state monitor daemon.  The owning
    [Manticore] object (registry operations, kill flag, event hook) and the
    state's [execute] method live outside [worker.py]; the run-loop is
    therefore written against an interface, and every theorem about it holds
    for every implementation of that interface. *)

From Stdlib Require Import ZArith Bool List Floats Uint63.
From stdpp Require Import gmap strings list.
Import ListNotations.

#[local] Open Scope string_scope.
#[local] Open Scope list_scope.
#[local] Open Scope Z_scope.

(** ** Constants (worker.py, line 16) *)

Definition HOST : string := "localhost".
Definition PORT : Z := 3214.

(** ** Exceptions

    [exn] stands for the instances of Python's [Exception] that can travel
    through [Worker.run].  [Concretize] and [TerminateState] are the two
    signal classes imported from [.state]; they derive from [Exception], so
    the guard of line 169 catches them too when they escape a handler.
    [AssertionError] is what a failed [assert] raises, [AttributeError] what
    an attribute access on [None] raises, and [OtherError] is any further
    exception a collaborator may raise. *)

Inductive exn : Type :=
| Concretize (message : string) (expression : Z) (policy : string) (setstate : Z)
| TerminateState (message : string)
| AssertionError
| AttributeError
| OtherError (message : string).

(** ** Exploration states

    The worker reads [id], writes [_terminated_by] and calls [execute];
    everything else a state carries is opaque to it and kept as [image]. *)

Module State.
Record t : Type := mk { id : Z; _terminated_by : option exn; image : Z }.

Definition set_terminated_by (exc : exn) (s : t) : t :=
  {| id := id s; _terminated_by := Some exc; image := image s |}.
End State.

(** ** The collaborator interface

    Every call may return normally or raise; the effect on the shared
    Manticore object is kept either way. *)

Inductive result (A : Type) : Type :=
| Ok (a : A)
| Raised (e : exn).
Arguments Ok {A} a.
Arguments Raised {A} e.

(** Positional arguments of [m._publish]. *)
Inductive pyarg : Type :=
| AInt (z : Z)
| AState (s : option State.t)
| AExn (e : exn).

Class Manticore (M : Type) : Type := {
  (** [m._killed.value] *)
  _killed : M -> bool;
  (** [m._busy_states] and [m._ready_states], read by the assertion of
      lines 120-123 *)
  _busy_states : M -> gset Z;
  _ready_states : M -> gset Z;
  _publish : string -> list pyarg -> M -> result unit * M;
  _get_state : bool -> M -> result (option State.t) * M;
  _save : State.t -> Z -> M -> result unit * M;
  _revive_state : Z -> M -> result unit * M;
  _fork : option State.t -> Z -> string -> Z -> M -> result (option Z) * M;
  _terminate_state : Z -> M -> result unit * M;
  _kill_state : Z -> M -> result unit * M;
  (** [current_state.execute()]: one advance of a state, which mutates the
      state in place and may touch the shared object *)
  execute : State.t -> M -> result unit * State.t * M
}.

(** The calls a worker makes, in the order it makes them. *)
Inductive call : Type :=
| C_publish (name : string) (args : list pyarg)
| C_get_state (wait : bool)
| C_execute (s : State.t)
| C_save (s : State.t) (state_id : Z)
| C_revive_state (state_id : Z)
| C_fork (s : option State.t) (expression : Z) (policy : string) (setstate : Z)
| C_terminate_state (state_id : Z)
| C_kill_state (state_id : Z).

(** ** A small monad for the body of [run]

    A frame holds the local variable [current_state], the shared Manticore
    object and the calls made so far.  A computation completes normally,
    with a pending exception, with a pending [break] of the enclosing
    [while], or runs out of fuel. *)

Inductive completion (A : Type) : Type :=
| Normal (a : A)
| Throw (e : exn)
| BreakLoop
| OutOfFuel.
Arguments Normal {A} a.
Arguments Throw {A} e.
Arguments BreakLoop {A}.
Arguments OutOfFuel {A}.

Record frame (M : Type) : Type := Frame {
  current_state : option State.t;
  m : M;
  calls : list call
}.
Arguments Frame {M} _ _ _.
Arguments current_state {M} _.
Arguments m {M} _.
Arguments calls {M} _.

Definition prog (M A : Type) : Type := frame M -> completion A * frame M.

Definition ret {M A} (a : A) : prog M A := fun f => (Normal a, f).

Definition bind {M A B} (p : prog M A) (k : A -> prog M B) : prog M B :=
  fun f =>
    match p f with
    | (Normal a, f') => k a f'
    | (Throw e, f') => (Throw e, f')
    | (BreakLoop, f') => (BreakLoop, f')
    | (OutOfFuel, f') => (OutOfFuel, f')
    end.

Declare Scope prog_scope.
Delimit Scope prog_scope with prog.
Notation "x <- p ;; k" := (bind p (fun x => k))
  (at level 100, p at next level, right associativity) : prog_scope.
Notation "p ;; k" := (bind p (fun _ => k))
  (at level 100, right associativity) : prog_scope.
#[local] Open Scope prog_scope.

Definition raise {M A} (e : exn) : prog M A := fun f => (Throw e, f).
Definition break_loop {M A} : prog M A := fun f => (BreakLoop, f).
Definition out_of_fuel {M A} : prog M A := fun f => (OutOfFuel, f).

Definition get_current {M} : prog M (option State.t) :=
  fun f => (Normal (current_state f), f).

Definition set_current {M} (cs : option State.t) : prog M unit :=
  fun f => (Normal tt, Frame cs (m f) (calls f)).

Definition read_m {M A} (g : M -> A) : prog M A :=
  fun f => (Normal (g (m f)), f).

Definition of_result {A} (r : result A) : completion A :=
  match r with
  | Ok a => Normal a
  | Raised e => Throw e
  end.

(** A call on the Manticore object: logged, then performed. *)
Definition call_m {M A} (c : call) (op : M -> result A * M) : prog M A :=
  fun f =>
    let (r, m') := op (m f) in
    (of_result r, Frame (current_state f) m' (calls f ++ [c])).

(** [try: p  except <classes matched by h>: ...] *)
Definition try_except {M A} (p : prog M A) (h : exn -> option (prog M A))
  : prog M A :=
  fun f =>
    match p f with
    | (Throw e, f') =>
        match h e with
        | Some k => k f'
        | None => (Throw e, f')
        end
    | r => r
    end.

Definition py_assert {M} (b : bool) : prog M unit :=
  if b then ret tt else raise AssertionError.

(** ** Worker.run (worker.py, lines 68-192) *)

Section Worker.
Context {M : Type} {MM : Manticore M}.

(** [self.id] *)
Variable self_id : Z.

Definition publish (name : string) (args : list pyarg) : prog M unit :=
  call_m (C_publish name args) (_publish name args).

(** [current_state.execute()] *)
Definition execute_current : prog M unit :=
  fun f =>
    match current_state f with
    | None => (Throw AttributeError, f)
    | Some s =>
        let '(r, s', m') := execute s (m f) in
        (of_result r, Frame (Some s') m' (calls f ++ [C_execute s]))
    end.

(** Lines 127-128: [while not m._killed.value: current_state.execute()].
    The loop has no [break]; it ends normally exactly when the flag is
    read true, and then the [else] suite of lines 129-137 runs. *)
Fixpoint drive (fuel : nat) : prog M unit :=
  killed <- read_m _killed ;;
  if killed : bool then ret tt
  else
    match fuel with
    | O => out_of_fuel
    | S n => execute_current ;; drive n
    end.

(** Lines 120-123 *)
Definition acquired_assertion (s : State.t) (mm : M) : bool :=
  bool_decide (State.id s ∈ _busy_states mm)
  && negb (bool_decide (State.id s ∈ _ready_states mm)).

(** Lines 135-137, the [else] suite of the drive loop *)
Definition checkpoint : prog M unit :=
  cur <- get_current ;;
  match cur with
  | None => raise AttributeError
  | Some s =>
      call_m (C_save s (State.id s)) (_save s (State.id s)) ;;
      call_m (C_revive_state (State.id s)) (_revive_state (State.id s)) ;;
      set_current None
  end.

(** Lines 127-139: the drive loop, its [else] suite and the closing
    assertion *)
Definition after_acquisition (fuel : nat) : prog M unit :=
  drive fuel ;;
  checkpoint ;;
  cur <- get_current ;;
  py_assert (bool_decide (cur = None)).

(** Lines 93-139, the suite of the inner [try] *)
Definition try_suite (fuel : nat) : prog M unit :=
  got <- call_m (C_get_state true) (_get_state true) ;;
  set_current got ;;
  match got with
  | None => break_loop
  | Some s =>
      ok <- read_m (acquired_assertion s) ;;
      py_assert ok ;;
      after_acquisition fuel
  end.

(** Lines 141-150, [except Concretize as exc] *)
Definition on_concretize (expression : Z) (policy : string) (setstate : Z)
  : prog M unit :=
  cur <- get_current ;;
  _ <- call_m (C_fork cur expression policy setstate)
              (_fork cur expression policy setstate) ;;
  set_current None.

(** Lines 152-167, [except TerminateState as exc] *)
Definition on_terminate (exc : exn) : prog M unit :=
  cur <- get_current ;;
  publish "will_terminate_state" [AState cur; AExn exc] ;;
  match cur with
  | None => raise AttributeError
  | Some s =>
      let s' := State.set_terminated_by exc s in
      set_current (Some s') ;;
      call_m (C_save s' (State.id s')) (_save s' (State.id s')) ;;
      call_m (C_terminate_state (State.id s')) (_terminate_state (State.id s')) ;;
      publish "did_terminate_state" [AState (Some s'); AExn exc] ;;
      set_current None
  end.

(** The two [except] clauses of the inner [try]. *)
Definition signal_handler (e : exn) : option (prog M unit) :=
  match e with
  | Concretize _ expression policy setstate =>
      Some (on_concretize expression policy setstate)
  | TerminateState _ => Some (on_terminate e)
  | _ => None
  end.

(** Lines 92-167 *)
Definition inner_try (fuel : nat) : prog M unit :=
  try_except (try_suite fuel) signal_handler.

(** Lines 169-187, [except (Exception, AssertionError) as exc] *)
Definition on_fatal (exc : exn) : prog M unit :=
  cur <- get_current ;;
  match cur with
  | Some s =>
      publish "will_kill_state" [AState (Some s); AExn exc] ;;
      call_m (C_save s (State.id s)) (_save s (State.id s)) ;;
      call_m (C_kill_state (State.id s)) (_kill_state (State.id s)) ;;
      publish "did_kill_state" [AState (Some s); AExn exc] ;;
      set_current None
  | None => ret tt
  end ;;
  break_loop.

(** Lines 91-187, the body of the outer [while] *)
Definition iteration (fuel : nat) : prog M unit :=
  try_except (inner_try fuel) (fun e => Some (on_fatal e)).

(** Lines 87-187: [while not m._killed.value: ...] *)
Fixpoint mainloop (fuel : nat) (f : frame M) : completion unit * frame M :=
  if _killed (m f) then (Normal tt, f)
  else
    match fuel with
    | O => (OutOfFuel, f)
    | S n =>
        match iteration n f with
        | (Normal _, f') => mainloop n f'
        | (BreakLoop, f') => (Normal tt, f')
        | r => r
        end
    end.

(** Lines 87-192: the main loop followed by the exit notification.  Every
    iteration of the loop starts here with a fresh frame. *)
Definition mainloop_and_exit (fuel : nat) : prog M unit :=
  (mainloop fuel : prog M unit) ;;
  publish "did_terminate_worker" [AInt self_id].

(** Lines 77-192.  The context manager of line 84 routes an interrupt to
    [m.kill]; it shows here only through the kill flag. *)
Definition run (fuel : nat) : prog M unit :=
  set_current None ;;
  publish "will_start_worker" [AInt self_id] ;;
  mainloop_and_exit fuel.

(** The call log is append-only: a computation [grows] the log, and it
    [starts_with] a call when that call is the first it appends. *)
Definition grows {A} (p : prog M A) : Prop :=
  forall f, exists l, calls (snd (p f)) = calls f ++ l.

Definition starts_with {A} (c : call) (p : prog M A) : Prop :=
  forall f, exists l, calls (snd (p f)) = calls f ++ c :: l.

(** [p'] does what [p] does whenever [p] does not run out of fuel. *)
Definition fuel_refines {A} (p p' : prog M A) : Prop :=
  forall f c f', p f = (c, f') -> c <> OutOfFuel -> p' f = (c, f').

End Worker.

(** ** A reference Manticore object

    [worker.py] only calls the owning object; its class is not part of this
    file's source.  The registry below supplies one implementation of the
    interface, used to run the worker on concrete scenarios. *)

(** What one [execute] of a state does in a scenario. *)
Inductive advance : Type :=
| Step                (* the step completes *)
| StepThenKill        (* the step completes and the kill flag is set meanwhile *)
| Signal (e : exn).   (* the step raises *)

Module Registry.

(** Modelled from the spec: the StateRegistry and the kill flag, missing
    from the source.  Four sets of ids, the map from ids to states, the
    flag, and the next fresh id. *)
Record t : Type := mk {
  killed_flag : bool;
  ready : gset Z;
  busy : gset Z;
  terminated : gset Z;
  killed : gset Z;
  states : gmap Z State.t;
  next_id : Z
}.

Definition set_lists (r : t) (rd bs tm kl : gset Z) : t :=
  mk (killed_flag r) rd bs tm kl (states r) (next_id r).

(** Modelled from the spec: the lookup in the id-to-state map, missing from
    the source.  The state comes back carrying the id it was asked for. *)
Definition load (r : t) (i : Z) : State.t :=
  match states r !! i with
  | Some s => State.mk i (State._terminated_by s) (State.image s)
  | None => State.mk i None 0
  end.

(** Modelled from the spec: [getState], missing from the source.  It moves
    one id from [ready] to [busy] and returns the state of that id; with
    no ready id it returns none (a lone unit has nothing to wait for). *)
Definition get_state (wait : bool) (r : t) : result (option State.t) * t :=
  match elements (ready r) with
  | [] => (Ok None, r)
  | i :: _ =>
      (Ok (Some (load r i)),
       set_lists r (ready r ∖ {[i]}) ({[i]} ∪ busy r) (terminated r) (killed r))
  end.

(** Modelled from the spec: [save], missing from the source.  It updates
    the stored record for an id and leaves list membership alone. *)
Definition save (s : State.t) (state_id : Z) (r : t) : result unit * t :=
  (Ok tt,
   mk (killed_flag r) (ready r) (busy r) (terminated r) (killed r)
      (<[state_id := s]> (states r)) (next_id r)).

(** Modelled from the spec: [revive], missing from the source.  It moves
    an id from [busy] back to [ready]; on an id that is not busy it is a
    contract violation, reported here as an exception. *)
Definition revive_state (state_id : Z) (r : t) : result unit * t :=
  if bool_decide (state_id ∈ busy r) then
    (Ok tt,
     set_lists r ({[state_id]} ∪ ready r) (busy r ∖ {[state_id]})
               (terminated r) (killed r))
  else (Raised (OtherError "revive: id is not busy"), r).

(** Modelled from the spec: [terminateState], missing from the source. *)
Definition terminate_state (state_id : Z) (r : t) : result unit * t :=
  (Ok tt,
   set_lists r (ready r) (busy r ∖ {[state_id]})
             ({[state_id]} ∪ terminated r) (killed r)).

(** Modelled from the spec: [killState], missing from the source. *)
Definition kill_state (state_id : Z) (r : t) : result unit * t :=
  (Ok tt,
   set_lists r (ready r) (busy r ∖ {[state_id]})
             (terminated r) ({[state_id]} ∪ killed r)).

(** Modelled from the spec: the materialization of the branches of a fork,
    missing from the source.  Successors get the ids [first], [first+1],
    ... and start from the parent's image. *)
Fixpoint successors (n : nat) (first : Z) (image : Z) : list State.t :=
  match n with
  | O => []
  | S n' => State.mk first None image :: successors n' (first + 1) image
  end.

(** Modelled from the spec: the insertion of a state into [ready], missing
    from the source. *)
Definition insert_ready (r : t) (s : State.t) : t :=
  mk (killed_flag r) ({[State.id s]} ∪ ready r) (busy r) (terminated r)
     (killed r) (<[State.id s := s]> (states r)) (next_id r).

(** Modelled from the spec: [fork], missing from the source.  The
    condition handle is read as the number of branches it resolves to;
    each branch gets a fresh id and goes to [ready].  Under the policy
    ["keep"] the first successor is handed back instead of being inserted
    (the keep-going path).  The parent is consumed. *)
Definition fork (s : option State.t) (expression : Z) (policy : string)
    (setstate : Z) (r : t) : result (option Z) * t :=
  let parent := default 0 (State.id <$> s) in
  let image := default 0 (State.image <$> s) in
  let children := successors (Z.to_nat expression) (next_id r) image in
  let r0 :=
    mk (killed_flag r) (ready r) (busy r ∖ {[parent]}) (terminated r)
       (killed r) (states r) (next_id r + Z.of_nat (length children)) in
  match children with
  | c :: rest =>
      if String.eqb policy "keep"
      then (Ok (Some (State.id c)), fold_left insert_ready rest r0)
      else (Ok None, fold_left insert_ready children r0)
  | [] => (Ok None, r0)
  end.

Section Scenario.
(** The collaborators outside the registry: what each state does when
    advanced, and which calls fail. *)
Variable behaviour : State.t -> advance.
Variable fault : call -> option exn.

(** A call that fails when the scenario says so, before it has any
    effect. *)
Definition guarded {A} (c : call) (op : t -> result A * t) (r : t)
  : result A * t :=
  match fault c with
  | Some e => (Raised e, r)
  | None => op r
  end.

(** One completed step of a state: only its image moves. *)
Definition advance_state (s : State.t) : State.t :=
  State.mk (State.id s) (State._terminated_by s) (State.image s + 1).

(** Modelled from the spec: the advance contract of section 6, missing
    from the source.  A step completes, or raises a signal or a failure;
    a kill requested from outside shows as the flag going up during a
    step. *)
Definition execute_state (s : State.t) (r : t) : result unit * State.t * t :=
  match behaviour s with
  | Step => (Ok tt, advance_state s, r)
  | StepThenKill =>
      (Ok tt, advance_state s,
       mk true (ready r) (busy r) (terminated r) (killed r) (states r)
          (next_id r))
  | Signal e => (Raised e, s, r)
  end.

(** Modelled from the spec: the Coordinator, missing from the source.  The
    event hook is fire-and-forget. *)
Definition manticore : Manticore t := {|
  _killed := killed_flag;
  _busy_states := busy;
  _ready_states := ready;
  _publish name args := guarded (C_publish name args) (fun r => (Ok tt, r));
  _get_state wait := guarded (C_get_state wait) (get_state wait);
  _save s i := guarded (C_save s i) (save s i);
  _revive_state i := guarded (C_revive_state i) (revive_state i);
  _fork s e p k := guarded (C_fork s e p k) (fork s e p k);
  _terminate_state i := guarded (C_terminate_state i) (terminate_state i);
  _kill_state i := guarded (C_kill_state i) (kill_state i);
  execute := execute_state
|}.
End Scenario.

(** A registry seeded with the given states, all ready. *)
Definition seed (l : list State.t) : t :=
  fold_left insert_ready l
    (mk false ∅ ∅ ∅ ∅ ∅ (Z.of_nat (length l))).

End Registry.

(** ** Wire messages ([state_pb2]) *)

Module state_pb2.
Inductive StateType : Type := READY | BUSY | TERMINATED | KILLED.

Record State : Type := mkState {
  id : Z;
  type : StateType;
  reason : string;
  num_executing : Z;
  wait_time : Z
}.

Record LogMessage : Type := mkLogMessage { content : string }.

Definition StateList : Type := list State.
Definition MessageList : Type := list LogMessage.
End state_pb2.

(** ** Listening sockets (worker.py, lines 269-270, 307, 361) *)

Inductive handler_class : Type := LogTCPHandler | MonitorTCPHandler.

Record TCPServer : Type := mkTCPServer {
  server_address : string * Z;
  RequestHandlerClass : handler_class;
  allow_reuse_address : bool
}.

(** [class ReusableTCPServer(socketserver.TCPServer)] overrides one class
    attribute. *)
Definition ReusableTCPServer (address : string * Z) (h : handler_class)
  : TCPServer :=
  {| server_address := address;
     RequestHandlerClass := h;
     allow_reuse_address := true |}.

(** ** The log queue

    [m._log_queue] is a bounded FIFO queue of the Python library; [get] and
    [put] block when the queue is empty or full, which is [None] here.
    [maxsize = 0] is the library's spelling of an unbounded queue. *)

Module Queue.
Record t : Type := mk { maxsize : nat; items : list string }.

Definition qsize (q : t) : nat := length (items q).

Definition empty (q : t) : bool := Nat.eqb (qsize q) 0.

Definition full (q : t) : bool :=
  Nat.ltb 0 (maxsize q) && Nat.leb (maxsize q) (qsize q).

Definition get (q : t) : option (string * t) :=
  match items q with
  | [] => None
  | x :: rest => Some (x, mk (maxsize q) rest)
  end.

Definition put (x : string) (q : t) : option t :=
  if full q then None else Some (mk (maxsize q) (items q ++ [x])).

(** What the library maintains: a bounded queue never holds more than
    [maxsize] items. *)
Definition wf (q : t) : Prop :=
  maxsize q = 0%nat ∨ (qsize q <= maxsize q)%nat.
End Queue.

(** ** LogCaptureWorker (worker.py, lines 273-309) *)

Module LogCaptureWorker.

(** Lines 279-283 *)
Definition log_callback (msg : string) (q : Queue.t) : option Queue.t :=
  q1 ← (if Queue.full q then snd <$> Queue.get q else Some q);
  Queue.put msg q1.

(** Lines 289-293: [while i < 50 and not q.empty()], counted down from
    the [50 - i] iterations that remain. *)
Fixpoint drain (remaining : nat) (q : Queue.t) (messages : state_pb2.MessageList)
  : option (state_pb2.MessageList * Queue.t) :=
  match remaining with
  | O => Some (messages, q)
  | S k =>
      if Queue.empty q then Some (messages, q)
      else
        '(x, q') ← Queue.get q;
        drain k q' (messages ++ [state_pb2.mkLogMessage x])%list
  end.

Section Dump.
Context {bytes : Type}.
(** [MessageList.SerializeToString] *)
Variable SerializeToString : state_pb2.MessageList -> bytes.

(** Lines 285-294.  The result is the reply, the new value of
    [self.activated] and the queue left behind. *)
Definition dump_logs (q : Queue.t) : option (bytes * bool * Queue.t) :=
  '(serialized, q') ← drain 50 q [];
  Some (SerializeToString serialized, true, q').
End Dump.

(** Line 307 *)
Definition server : TCPServer := ReusableTCPServer (HOST, PORT) LogTCPHandler.

End LogCaptureWorker.

(** ** State descriptors and their rendering (worker.py, lines 317-338) *)

(** [StateStatus]: the source names one member, [destroyed]. *)
Inductive StateStatus : Type :=
| destroyed
| other_status (name : string).

#[global] Instance StateStatus_eq_dec : EqDecision StateStatus.
Proof. solve_decision. Defined.

(** [StateLists]: the four keys of the table of lines 325-330. *)
Inductive StateLists : Type := ready | busy | terminated | killed.

#[global] Instance StateLists_eq_dec : EqDecision StateLists.
Proof. solve_decision. Defined.

(** The fields of a [StateDescriptor] that the rendering reads.  Datetimes
    are counted in microseconds, the resolution of [datetime]. *)
Record StateDescriptor : Type := mkStateDescriptor {
  state_id : Z;
  status : StateStatus;
  state_list : StateLists;
  termination_msg : string;
  own_execs : Z;
  field_updated_at : gmap string Z
}.

(** Conversion of an integer to a double.  It is exact below [2^53], which
    covers every span of less than 285 years counted in microseconds. *)
Definition float_of_Z (z : Z) : float :=
  if (z <? 0)%Z then PrimFloat.opp (PrimFloat.of_uint63 (Uint63.of_Z (- z)))
  else PrimFloat.of_uint63 (Uint63.of_Z z).

(** [timedelta.total_seconds()]: the microsecond count divided by [10**6],
    as a double. *)
Definition total_seconds (delta : Z) : float :=
  PrimFloat.div (float_of_Z delta) (float_of_Z 1000000).

(** [int(x)] on a double: truncation towards zero.  Python raises on an
    infinity or a NaN; the product of lines 333-335 is always finite, and
    the two are sent to 0 here. *)
Definition py_int (x : float) : Z :=
  match Prim2SF x with
  | S754_finite s mant e =>
      let magnitude :=
        if (0 <=? e)%Z then Zpos mant * 2 ^ e else Zpos mant / 2 ^ (- e) in
      if s then - magnitude else magnitude
  | _ => 0
  end.

(** The table of lines 325-330, with the lookup a dict performs. *)
Definition type_table : list (StateLists * state_pb2.StateType) :=
  [ (ready, state_pb2.READY);
    (busy, state_pb2.BUSY);
    (terminated, state_pb2.TERMINATED);
    (killed, state_pb2.KILLED) ].

Fixpoint dict_get {K V} `{EqDecision K} (d : list (K * V)) (k : K) : option V :=
  match d with
  | [] => None
  | (k', v) :: rest => if decide (k' = k) then Some v else dict_get rest k
  end.

(** Lines 333-335 *)
Definition wait_time_of (now : Z) (st : StateDescriptor) : Z :=
  py_int
    (PrimFloat.mul
       (total_seconds (now - default now (field_updated_at st !! "state_list")))
       (float_of_Z 1000)).

(** Lines 319-337.  [desc.values()] is the list of descriptors in the
    dict's order; [clock k] is what the [k]-th call of [datetime.now()]
    returns.  A failed table lookup raises, which ends the rendering
    ([None]). *)
Fixpoint render_loop (clock : nat -> Z) (k : nat) (values : list StateDescriptor)
    (out : state_pb2.StateList) : option state_pb2.StateList :=
  match values with
  | [] => Some out
  | st :: rest =>
      if decide (status st ≠ destroyed) then
        let now := clock k in
        ty ← dict_get type_table (state_list st);
        render_loop clock (S k) rest
          (out ++ [state_pb2.mkState (state_id st) ty (termination_msg st)
                     (own_execs st) (wait_time_of now st)])%list
      else render_loop clock k rest out
  end.

Definition render_state_descriptors (clock : nat -> Z)
    (desc : list (Z * StateDescriptor)) : option state_pb2.StateList :=
  render_loop clock 0 (snd <$> desc) [].

(** ** StateMonitorWorker (worker.py, lines 341-363) *)

Module StateMonitorWorker.
Section Dump.
Context {bytes : Type}.
(** [StateList.SerializeToString] *)
Variable SerializeToString : state_pb2.StateList -> bytes.
(** [self.manticore.introspect()] *)
Variable introspect : list (Z * StateDescriptor).

(** Lines 345-348 *)
Definition dump_states (clock : nat -> Z) : option bytes :=
  SerializeToString <$> render_state_descriptors clock introspect.
End Dump.

(** Line 361 *)
Definition server : TCPServer :=
  ReusableTCPServer (HOST, PORT + 1) MonitorTCPHandler.
End StateMonitorWorker.

(** ** Scenarios *)

Definition no_fault : call -> option exn := fun _ => None.

Definition always (a : advance) : State.t -> advance := fun _ => a.

Definition S0 : State.t := State.mk 0 None 0.

(** The frame in which [run] starts. *)
Definition start {M} (mm : M) : frame M := Frame None mm [].

(** The registry's [terminateState] is out of order. *)
Definition terminate_fails (c : call) : option exn :=
  match c with
  | C_terminate_state _ => Some (OtherError "registry unavailable")
  | _ => None
  end.

(** The registry's [getState] is out of order. *)
Definition get_state_fails (c : call) : option exn :=
  match c with
  | C_get_state _ => Some (OtherError "registry unavailable")
  | _ => None
  end.

(** State 0 reaches a decision point with two branches under the policy
    that keeps the first successor; every other state terminates. *)
Definition fork_then_finish (s : State.t) : advance :=
  if (State.id s =? 0)%Z then Signal (Concretize "branch" 2 "keep" 0)
  else Signal (TerminateState "done").

(** A busy state whose list membership changed at time 0. *)
Definition busy_descriptor : StateDescriptor :=
  mkStateDescriptor 5 (other_status "running") busy "" 3 {["state_list" := 0]}.

(** A clock that reads [t] microseconds at every call. *)
Definition clock_at (t : Z) : nat -> Z := fun _ => t.

(** A log queue of capacity two, full. *)
Definition full_queue : Queue.t := Queue.mk 2 ["first"; "second"].

(** ** The rendering, as the specification words it

    Drop the destroyed descriptors; map each remaining one to a wire record
    of its id, its list, its termination message, its execution counter and
    its waiting time. *)




(** The whole number of milliseconds in a span of microseconds. *)
Definition whole_milliseconds (delta : Z) : Z := Z.quot delta 1000.

(** ** The request handlers (worker.py, lines 263-266 and 312-314)

    A handler serves one connection: it sends one reply on the request
    socket, here the list of byte strings sent on it.  The servers handle
    their connections one after the other. *)

Module LogTCPHandler.
Section Handle.
Context {bytes : Type}.
Variable SerializeToString : state_pb2.MessageList -> bytes.

(** Lines 264-266: the transmissions of the connection, the worker's
    [activated] flag and the queue left behind. *)
Definition handle (request : list bytes) (q : Queue.t)
  : option (list bytes * bool * Queue.t) :=
  '(messages, activated, q') ← LogCaptureWorker.dump_logs SerializeToString q;
  Some (request ++ [messages], activated, q').

(** [n] connections in a row, each on a fresh request socket. *)
Fixpoint serve (n : nat) (q : Queue.t) : option (list (list bytes) * Queue.t) :=
  match n with
  | O => Some ([], q)
  | S k =>
      '(sent, _, q') ← handle [] q;
      '(later, q'') ← serve k q';
      Some (sent :: later, q'')
  end.
End Handle.
End LogTCPHandler.

Module MonitorTCPHandler.
Section Handle.
Context {bytes : Type}.
Variable SerializeToString : state_pb2.StateList -> bytes.
Variable introspect : list (Z * StateDescriptor).

(** Lines 313-314 *)
Definition handle (clock : nat -> Z) (request : list bytes)
  : option (list bytes) :=
  reply ← StateMonitorWorker.dump_states SerializeToString introspect clock;
  Some (request ++ [reply]).
End Handle.
End MonitorTCPHandler.

(** The log callback invoked once per record, in the order the records are
    emitted. *)
Fixpoint log_all (msgs : list string) (q : Queue.t) : option Queue.t :=
  match msgs with
  | [] => Some q
  | msg :: rest => q' ← LogCaptureWorker.log_callback msg q; log_all rest q'
  end.

(** ** Predicates on the call log *)

(** A computation appends to the log a run of calls that satisfies [P]. *)
Definition appends {M A} (P : list call -> Prop) (p : prog M A) : Prop :=
  forall f, exists l, calls (snd (p f)) = calls f ++ l /\ P l.

Definition saves_under_own_id (c : call) : Prop :=
  match c with
  | C_save s state_id => state_id = State.id s
  | _ => True
  end.

(** The id a call moves from one registry list to another. *)
Definition moved_id (c : call) : option Z :=
  match c with
  | C_revive_state i | C_terminate_state i | C_kill_state i => Some i
  | _ => None
  end.

(** Every move in [l] comes right after a save under the same id; [prev] is
    the call that precedes [l]. *)
Fixpoint moves_follow_saves (prev : option call) (l : list call) : Prop :=
  match l with
  | [] => True
  | c :: rest =>
      (forall i, moved_id c = Some i -> exists s, prev = Some (C_save s i))
      /\ moves_follow_saves (Some c) rest
  end.

Definition is_execute (c : call) : Prop :=
  match c with C_execute _ => True | _ => False end.

Definition is_publish (c : call) : Prop :=
  match c with C_publish _ _ => True | _ => False end.

Definition is_kill (c : call) : Prop :=
  match c with C_kill_state _ => True | _ => False end.

(** After a kill, [l] holds nothing but publications. *)
Fixpoint quiet_after_kill (l : list call) : Prop :=
  match l with
  | [] => True
  | c :: rest => (is_kill c -> Forall is_publish rest) /\ quiet_after_kill rest
  end.

(** ** More scenarios *)

(** The registry cannot save. *)
Definition save_fails (c : call) : option exn :=
  match c with
  | C_save _ _ => Some (OtherError "disk full")
  | _ => None
  end.

(** The acquisition itself raises a terminate signal. *)
Definition get_state_terminates (c : call) : option exn :=
  match c with
  | C_get_state _ => Some (TerminateState "shutdown")
  | _ => None
  end.

(** The seeded registry after a kill request. *)
Definition killed_registry : Registry.t :=
  let r := Registry.seed [S0] in
  Registry.mk true (Registry.ready r) (Registry.busy r) (Registry.terminated r)
    (Registry.killed r) (Registry.states r) (Registry.next_id r).

(** An owner whose [_get_state] hands out state 0 without moving it to
    busy. *)
Definition careless_manticore : Manticore Registry.t :=
  let good := Registry.manticore (always Step) no_fault in
  {| _killed := Registry.killed_flag;
     _busy_states := Registry.busy;
     _ready_states := Registry.ready;
     _publish := @_publish _ good;
     _get_state := fun _ r => (Ok (Some S0), r);
     _save := @_save _ good;
     _revive_state := @_revive_state _ good;
     _fork := @_fork _ good;
     _terminate_state := @_terminate_state _ good;
     _kill_state := @_kill_state _ good;
     execute := @execute _ good |}.

(** A destroyed state, and a ready one without any recorded list change. *)
Definition destroyed_descriptor : StateDescriptor :=
  mkStateDescriptor 4 destroyed killed "gone" 9 {["state_list" := 0]}.

Definition fresh_descriptor : StateDescriptor :=
  mkStateDescriptor 6 (other_status "waiting_for_worker") ready "" 0 ∅.

(* ===================================================================== *)
(** * Properties of the run-loop *)

Section WorkerFacts.
Context {M : Type} {MM : Manticore M}.
Variable self_id : Z.

Lemma call_m_ok {A} (c : call) (op : M -> result A * M) f a m' :
  op (m f) = (Ok a, m') ->
  call_m c op f = (Normal a, Frame (current_state f) m' (calls f ++ [c])).
Proof. intros E. unfold call_m. now rewrite E. Qed.

Lemma call_m_raised {A} (c : call) (op : M -> result A * M) f e m' :
  op (m f) = (Raised e, m') ->
  call_m c op f = (Throw e, Frame (current_state f) m' (calls f ++ [c])).
Proof. intros E. unfold call_m. now rewrite E. Qed.

(** The suite of the fatal guard when a state is held and its four calls
    return. *)
Lemma on_fatal_held exc f s m2 m3 m4 m5 :
  current_state f = Some s ->
  _publish "will_kill_state" [AState (Some s); AExn exc] (m f) = (Ok tt, m2) ->
  _save s (State.id s) m2 = (Ok tt, m3) ->
  _kill_state (State.id s) m3 = (Ok tt, m4) ->
  _publish "did_kill_state" [AState (Some s); AExn exc] m4 = (Ok tt, m5) ->
  on_fatal exc f =
    (BreakLoop,
     Frame None m5
       (calls f ++
          [C_publish "will_kill_state" [AState (Some s); AExn exc];
           C_save s (State.id s);
           C_kill_state (State.id s);
           C_publish "did_kill_state" [AState (Some s); AExn exc]])).
Proof.
  intros Hc H1 H2 H3 H4.
  unfold on_fatal, bind, get_current, publish, call_m, set_current, break_loop.
  rewrite Hc; cbn. rewrite H1; cbn. rewrite H2; cbn. rewrite H3; cbn.
  rewrite H4; cbn. now rewrite <- !app_assoc.
Qed.

(** The suite of the fatal guard when no state is held: nothing is
    called. *)
Lemma on_fatal_not_held exc f :
  current_state f = None -> on_fatal exc f = (BreakLoop, f).
Proof.
  intros Hc. unfold on_fatal, bind, get_current, break_loop, ret.
  now rewrite Hc.
Qed.

Lemma iteration_fatal fuel f exc f1 :
  inner_try fuel f = (Throw exc, f1) -> iteration fuel f = on_fatal exc f1.
Proof. intros E. unfold iteration, try_except. now rewrite E. Qed.

Lemma mainloop_break fuel f f' :
  _killed (m f) = false ->
  iteration fuel f = (BreakLoop, f') ->
  mainloop (S fuel) f = (Normal tt, f').
Proof. intros Hk E. cbn. now rewrite Hk, E. Qed.

Lemma mainloop_continue fuel f f' :
  _killed (m f) = false ->
  iteration fuel f = (Normal tt, f') ->
  mainloop (S fuel) f = mainloop fuel f'.
Proof. intros Hk E. cbn. now rewrite Hk, E. Qed.

Lemma mainloop_killed fuel f :
  _killed (m f) = true -> mainloop fuel f = (Normal tt, f).
Proof. intros Hk. destruct fuel; cbn; now rewrite Hk. Qed.

Lemma exit_after_loop fuel f f' :
  mainloop fuel f = (Normal tt, f') ->
  mainloop_and_exit self_id fuel f =
    publish "did_terminate_worker" [AInt self_id] f'.
Proof. intros E. unfold mainloop_and_exit, bind. now rewrite E. Qed.

(** C2.  An unrecoverable failure reaches the outer guard while a state
    [s] is held.  When the four calls of the guard return, the unit
    publishes "will_kill_state", saves [s] under [s]'s own id, moves that
    id to the killed list, publishes "did_kill_state", leaves the loop and
    publishes "did_terminate_worker": these five calls, in this order, are
    all it does from the failure on, and it never asks for a state
    again. *)
Theorem unrecoverable_failure_kills_state_and_retires_unit
    fuel f f1 exc s m2 m3 m4 m5 m6 :
  _killed (m f) = false ->
  inner_try fuel f = (Throw exc, f1) ->
  current_state f1 = Some s ->
  _publish "will_kill_state" [AState (Some s); AExn exc] (m f1) = (Ok tt, m2) ->
  _save s (State.id s) m2 = (Ok tt, m3) ->
  _kill_state (State.id s) m3 = (Ok tt, m4) ->
  _publish "did_kill_state" [AState (Some s); AExn exc] m4 = (Ok tt, m5) ->
  _publish "did_terminate_worker" [AInt self_id] m5 = (Ok tt, m6) ->
  mainloop_and_exit self_id (S fuel) f =
    (Normal tt,
     Frame None m6
       (calls f1 ++
          [C_publish "will_kill_state" [AState (Some s); AExn exc];
           C_save s (State.id s);
           C_kill_state (State.id s);
           C_publish "did_kill_state" [AState (Some s); AExn exc];
           C_publish "did_terminate_worker" [AInt self_id]])).
Proof.
  intros Hk Htry Hc H1 H2 H3 H4 H5.
  pose proof (on_fatal_held exc f1 s m2 m3 m4 m5 Hc H1 H2 H3 H4) as Hf.
  rewrite <- (iteration_fatal fuel f exc f1 Htry) in Hf.
  rewrite (exit_after_loop _ _ _ (mainloop_break _ _ _ Hk Hf)).
  unfold publish. rewrite (call_m_ok _ _ _ tt m6) by exact H5.
  cbn. now rewrite <- app_assoc.
Qed.

(** C10.  A failure reaches the outer guard while no state is held.  The
    guard then calls nothing: the shared object and the call log are as
    the failing code left them, so no list is touched, nothing is saved or
    killed and no kill event is published.  The loop is left and the next
    and last call is the publication of "did_terminate_worker". *)
Theorem failure_without_state_only_retires_unit fuel f f1 exc :
  _killed (m f) = false ->
  inner_try fuel f = (Throw exc, f1) ->
  current_state f1 = None ->
  iteration fuel f = (BreakLoop, f1)
  /\ mainloop_and_exit self_id (S fuel) f =
       publish "did_terminate_worker" [AInt self_id] f1
  /\ calls (snd (mainloop_and_exit self_id (S fuel) f)) =
       calls f1 ++ [C_publish "did_terminate_worker" [AInt self_id]]
  /\ m (snd (mainloop_and_exit self_id (S fuel) f)) =
       snd (_publish "did_terminate_worker" [AInt self_id] (m f1)).
Proof.
  intros Hk Htry Hc.
  assert (Hit : iteration fuel f = (BreakLoop, f1)).
  { rewrite (iteration_fatal _ _ _ _ Htry). now apply on_fatal_not_held. }
  assert (Hrun : mainloop_and_exit self_id (S fuel) f =
                 publish "did_terminate_worker" [AInt self_id] f1).
  { apply exit_after_loop. now apply mainloop_break. }
  repeat split; try assumption; rewrite Hrun; unfold publish, call_m;
    destruct (_publish _ _ (m f1)); reflexivity.
Qed.

(** *** The call log only grows *)

Lemma grows_pure {A} (p : prog M A) :
  (forall f, calls (snd (p f)) = calls f) -> grows p.
Proof. intros E f. exists []. now rewrite E, app_nil_r. Qed.

Lemma grows_call_m {A} c (op : M -> result A * M) : grows (call_m c op).
Proof. intros f. exists [c]. unfold call_m. now destruct (op (m f)). Qed.

Lemma grows_bind {A B} (p : prog M A) (k : A -> prog M B) :
  grows p -> (forall a, grows (k a)) -> grows (bind p k).
Proof.
  intros Hp Hk f. destruct (Hp f) as [l Hl]. unfold bind.
  destruct (p f) as [[a| | |] f']; cbn in *; eauto.
  destruct (Hk a f') as [l' Hl']. exists (l ++ l').
  now rewrite Hl', Hl, app_assoc.
Qed.

Lemma grows_try_except {A} (p : prog M A) h :
  grows p -> (forall e k, h e = Some k -> grows k) -> grows (try_except p h).
Proof.
  intros Hp Hh f. destruct (Hp f) as [l Hl]. unfold try_except.
  destruct (p f) as [[a|e| |] f']; cbn in *; eauto.
  destruct (h e) as [k|] eqn:E; cbn; eauto.
  destruct (Hh e k E f') as [l' Hl']. exists (l ++ l').
  now rewrite Hl', Hl, app_assoc.
Qed.

Lemma starts_with_bind_call {A B} c (op : M -> result A * M)
    (k : A -> prog M B) :
  (forall a, grows (k a)) -> starts_with c (bind (call_m c op) k).
Proof.
  intros Hk f. unfold bind, call_m.
  destruct (op (m f)) as [[a|e] m']; cbn; [|now exists []].
  destruct (Hk a (Frame (current_state f) m' (calls f ++ [c]))) as [l Hl].
  exists l. rewrite Hl. cbn. now rewrite <- app_assoc.
Qed.

Lemma starts_with_try_except {A} c (p : prog M A) h :
  starts_with c p -> (forall e k, h e = Some k -> grows k) ->
  starts_with c (try_except p h).
Proof.
  intros Hp Hh f. destruct (Hp f) as [l Hl]. unfold try_except.
  destruct (p f) as [[a|e| |] f']; cbn in *; eauto.
  destruct (h e) as [k|] eqn:E; cbn; eauto.
  destruct (Hh e k E f') as [l' Hl']. exists (l ++ l').
  now rewrite Hl', Hl, <- app_assoc.
Qed.

Lemma grows_ret {A} (a : A) : grows (M := M) (ret a).
Proof. now apply grows_pure. Qed.
Lemma grows_raise {A} e : grows (@raise M A e).
Proof. now apply grows_pure. Qed.
Lemma grows_break_loop {A} : grows (@break_loop M A).
Proof. now apply grows_pure. Qed.
Lemma grows_out_of_fuel {A} : grows (@out_of_fuel M A).
Proof. now apply grows_pure. Qed.
Lemma grows_get_current : grows (@get_current M).
Proof. now apply grows_pure. Qed.
Lemma grows_set_current cs : grows (@set_current M cs).
Proof. now apply grows_pure. Qed.
Lemma grows_read_m {A} (g : M -> A) : grows (read_m g).
Proof. now apply grows_pure. Qed.
Lemma grows_py_assert b : grows (@py_assert M b).
Proof. destruct b; now apply grows_pure. Qed.
Lemma grows_publish name args : grows (publish name args).
Proof. apply grows_call_m. Qed.

Lemma grows_execute_current : grows execute_current.
Proof.
  intros f. unfold execute_current.
  destruct (current_state f) as [s|]; [|exists []; cbn; now rewrite app_nil_r].
  destruct (execute s (m f)) as [[r s'] m']. now exists [C_execute s].
Qed.

Create HintDb grows_db.
#[local] Hint Resolve grows_call_m grows_ret grows_raise grows_break_loop
  grows_out_of_fuel grows_get_current grows_set_current grows_read_m
  grows_py_assert grows_publish grows_execute_current : grows_db.

Ltac grows_tac :=
  repeat first
    [ progress eauto with grows_db
    | apply grows_bind; [|intros ?]
    | match goal with
      | |- grows (match ?x with _ => _ end) => destruct x
      | |- grows (if ?x then _ else _) => destruct x
      end ].

Lemma grows_drive fuel : grows (drive fuel).
Proof. induction fuel; cbn [drive]; grows_tac. Qed.

Lemma grows_checkpoint : grows checkpoint.
Proof. unfold checkpoint; grows_tac. Qed.

Lemma grows_on_concretize e p k : grows (on_concretize e p k).
Proof. unfold on_concretize; grows_tac. Qed.

Lemma grows_on_terminate exc : grows (on_terminate exc).
Proof. unfold on_terminate; grows_tac. Qed.

Lemma grows_on_fatal exc : grows (on_fatal exc).
Proof. unfold on_fatal; grows_tac. Qed.

Lemma grows_signal_handler e k : signal_handler e = Some k -> grows k.
Proof.
  destruct e; cbn; intros E; inversion E; subst;
    auto using grows_on_concretize, grows_on_terminate.
Qed.

Lemma iteration_starts_with_get_state fuel :
  starts_with (C_get_state true) (iteration fuel).
Proof.
  unfold iteration, inner_try, try_suite.
  apply starts_with_try_except;
    [apply starts_with_try_except; [|apply grows_signal_handler]|].
  - apply starts_with_bind_call. intros got.
    pose proof (grows_drive fuel). pose proof grows_checkpoint. grows_tac.
  - intros e k E. inversion E; subst. apply grows_on_fatal.
Qed.

Lemma grows_iteration fuel : grows (iteration fuel).
Proof.
  intros f. destruct (iteration_starts_with_get_state fuel f) as [l Hl]. eauto.
Qed.

Lemma grows_mainloop fuel : grows (mainloop fuel).
Proof.
  induction fuel as [|n IH]; intros f; cbn [mainloop];
    (destruct (_killed (m f)); [exists []; cbn; now rewrite app_nil_r|]).
  - exists []. cbn. now rewrite app_nil_r.
  - destruct (grows_iteration n f) as [l Hl].
    destruct (iteration n f) as [[[]|e| |] f']; cbn in *; eauto.
    destruct (IH f') as [l' Hl']. exists (l ++ l').
    now rewrite Hl', Hl, app_assoc.
Qed.

(** With the kill flag down and fuel left, the loop's next call is the
    acquisition. *)
Lemma mainloop_acquires_first fuel f :
  _killed (m f) = false ->
  exists l, calls (snd (mainloop (S fuel) f)) = calls f ++ C_get_state true :: l.
Proof.
  intros Hk. cbn [mainloop]. rewrite Hk.
  destruct (iteration_starts_with_get_state fuel f) as [l Hl].
  destruct (iteration fuel f) as [[[]|e| |] f']; cbn in *; eauto.
  destruct (grows_mainloop fuel f') as [l' Hl']. exists (l ++ l').
  rewrite Hl', Hl. now rewrite <- app_assoc.
Qed.

(** *** The two signal handlers *)

Lemma inner_try_signal fuel f sig f1 k :
  try_suite fuel f = (Throw sig, f1) ->
  signal_handler sig = Some k ->
  inner_try fuel f = k f1.
Proof. intros E Hh. unfold inner_try, try_except. now rewrite E, Hh. Qed.

(** An exception that is neither signal passes the inner [try]. *)
Lemma inner_try_failure fuel f exc f1 :
  try_suite fuel f = (Throw exc, f1) ->
  signal_handler exc = None ->
  inner_try fuel f = (Throw exc, f1).
Proof. intros E Hh. unfold inner_try, try_except. now rewrite E, Hh. Qed.

Lemma iteration_normal fuel f f' :
  inner_try fuel f = (Normal tt, f') -> iteration fuel f = (Normal tt, f').
Proof. intros E. unfold iteration, try_except. now rewrite E. Qed.

Lemma on_terminate_held exc f s m2 m3 m4 m5 :
  current_state f = Some s ->
  _publish "will_terminate_state" [AState (Some s); AExn exc] (m f)
    = (Ok tt, m2) ->
  _save (State.set_terminated_by exc s) (State.id s) m2 = (Ok tt, m3) ->
  _terminate_state (State.id s) m3 = (Ok tt, m4) ->
  _publish "did_terminate_state"
    [AState (Some (State.set_terminated_by exc s)); AExn exc] m4
    = (Ok tt, m5) ->
  on_terminate exc f =
    (Normal tt,
     Frame None m5
       (calls f ++
          [C_publish "will_terminate_state" [AState (Some s); AExn exc];
           C_save (State.set_terminated_by exc s) (State.id s);
           C_terminate_state (State.id s);
           C_publish "did_terminate_state"
             [AState (Some (State.set_terminated_by exc s)); AExn exc]])).
Proof.
  intros Hc H1 H2 H3 H4.
  unfold on_terminate, bind, get_current, publish, call_m, set_current.
  rewrite Hc; cbn. rewrite H1; cbn. rewrite H2; cbn. rewrite H3; cbn.
  rewrite H4; cbn. now rewrite <- !app_assoc.
Qed.

(** A handler that fails still holds the state it was handling, under the
    same id. *)
Lemma on_concretize_fails e p k f s exc f2 :
  current_state f = Some s ->
  on_concretize e p k f = (Throw exc, f2) ->
  current_state f2 = Some s.
Proof.
  intros Hc. unfold on_concretize, bind, get_current, call_m, set_current.
  rewrite Hc; cbn.
  destruct (_fork _ _ _ _ _) as [[r|e'] m']; cbn; intros E; now inversion E.
Qed.

Lemma on_terminate_fails sig f s exc f2 :
  current_state f = Some s ->
  on_terminate sig f = (Throw exc, f2) ->
  current_state f2 = Some s
  \/ current_state f2 = Some (State.set_terminated_by sig s).
Proof.
  intros Hc.
  unfold on_terminate, bind, get_current, publish, call_m, set_current.
  rewrite Hc; cbn.
  destruct (_publish "will_terminate_state" _ _) as [[[]|e1] m1]; cbn;
    [|intros E; inversion E; now left].
  destruct (_save _ _ _) as [[[]|e2] m2]; cbn;
    [|intros E; inversion E; now right].
  destruct (_terminate_state _ _) as [[[]|e3] m3]; cbn;
    [|intros E; inversion E; now right].
  destruct (_publish "did_terminate_state" _ _) as [[[]|e4] m4]; cbn;
    intros E; inversion E; now right.
Qed.

Lemma signal_handler_fails sig k f s exc f2 :
  signal_handler sig = Some k ->
  current_state f = Some s ->
  k f = (Throw exc, f2) ->
  exists s', current_state f2 = Some s' /\ State.id s' = State.id s.
Proof.
  intros Hh Hc E. destruct sig; cbn in Hh; inversion Hh; subst.
  - exists s. split; [|reflexivity]. eapply on_concretize_fails; eauto.
  - destruct (on_terminate_fails _ _ _ _ _ Hc E) as [E'|E']; eauto.
Qed.

(** C5.  A terminate signal leaves the inner [try] while a state [s] is
    held.  When the four calls of the handler return, the unit publishes
    "will_terminate_state" (with the state as it was), records the signal
    on the state, saves the state under its own id, moves that id to the
    terminated list and publishes "did_terminate_state" (with the state as
    recorded).  It then holds no state, the loop goes on from there, and
    with the kill flag still down its next call is the acquisition. *)
Theorem terminate_signal_is_recorded_and_unit_loops_back
    fuel f f1 msg s m2 m3 m4 m5 :
  let exc := TerminateState msg in
  let s' := State.set_terminated_by exc s in
  let f' :=
    Frame None m5
      (calls f1 ++
         [C_publish "will_terminate_state" [AState (Some s); AExn exc];
          C_save s' (State.id s);
          C_terminate_state (State.id s);
          C_publish "did_terminate_state" [AState (Some s'); AExn exc]]) in
  _killed (m f) = false ->
  try_suite fuel f = (Throw exc, f1) ->
  current_state f1 = Some s ->
  _publish "will_terminate_state" [AState (Some s); AExn exc] (m f1)
    = (Ok tt, m2) ->
  _save s' (State.id s) m2 = (Ok tt, m3) ->
  _terminate_state (State.id s) m3 = (Ok tt, m4) ->
  _publish "did_terminate_state" [AState (Some s'); AExn exc] m4
    = (Ok tt, m5) ->
  State._terminated_by s' = Some exc
  /\ iteration fuel f = (Normal tt, f')
  /\ mainloop (S fuel) f = mainloop fuel f'
  /\ (_killed m5 = false ->
      forall n, fuel = S n ->
      exists l,
        calls (snd (mainloop_and_exit self_id (S fuel) f)) =
          calls f' ++ C_get_state true :: l).
Proof.
  intros exc s' f' Hk Htry Hc H1 H2 H3 H4.
  assert (Hit : iteration fuel f = (Normal tt, f')).
  { apply iteration_normal.
    rewrite (inner_try_signal fuel f exc f1 (on_terminate exc) Htry eq_refl).
    now apply on_terminate_held with (m2 := m2) (m3 := m3) (m4 := m4). }
  assert (Hloop : mainloop (S fuel) f = mainloop fuel f')
    by now apply mainloop_continue.
  repeat split; try assumption.
  intros Hk5 n ->.
  destruct (mainloop_acquires_first n f' Hk5) as [l Hl].
  unfold mainloop_and_exit, bind. rewrite Hloop.
  destruct (mainloop (S n) f') as [[[]|e| |] f3]; cbn in *; eauto.
  destruct (grows_publish "did_terminate_worker" [AInt self_id] f3)
    as [l' Hl'].
  exists (l ++ l'). rewrite Hl', Hl. now rewrite <- app_assoc.
Qed.

(** C3.  A fork or terminate signal leaves the inner [try] while a state
    [s] is held, and the handler of that signal itself fails with [exc].
    The failure reaches the outer guard with the state still held under
    the same id, and is treated as any unrecoverable failure: when the
    guard's four calls return, the state is announced, saved under its id
    and moved to killed, and the unit leaves its loop and publishes
    "did_terminate_worker". *)
Theorem failure_inside_signal_handler_is_fatal
    fuel f sig f1 s k exc f2 :
  _killed (m f) = false ->
  try_suite fuel f = (Throw sig, f1) ->
  current_state f1 = Some s ->
  signal_handler sig = Some k ->
  k f1 = (Throw exc, f2) ->
  exists s',
    current_state f2 = Some s'
    /\ State.id s' = State.id s
    /\ inner_try fuel f = (Throw exc, f2)
    /\ forall m3 m4 m5 m6 m7,
        _publish "will_kill_state" [AState (Some s'); AExn exc] (m f2)
          = (Ok tt, m3) ->
        _save s' (State.id s') m3 = (Ok tt, m4) ->
        _kill_state (State.id s') m4 = (Ok tt, m5) ->
        _publish "did_kill_state" [AState (Some s'); AExn exc] m5
          = (Ok tt, m6) ->
        _publish "did_terminate_worker" [AInt self_id] m6 = (Ok tt, m7) ->
        mainloop_and_exit self_id (S fuel) f =
          (Normal tt,
           Frame None m7
             (calls f2 ++
                [C_publish "will_kill_state" [AState (Some s'); AExn exc];
                 C_save s' (State.id s');
                 C_kill_state (State.id s');
                 C_publish "did_kill_state" [AState (Some s'); AExn exc];
                 C_publish "did_terminate_worker" [AInt self_id]])).
Proof.
  intros Hk Htry Hc Hh Hfail.
  destruct (signal_handler_fails sig k f1 s exc f2 Hh Hc Hfail)
    as (s' & Hc' & Hid).
  assert (Hin : inner_try fuel f = (Throw exc, f2))
    by now rewrite (inner_try_signal fuel f sig f1 k Htry Hh).
  exists s'. repeat split; try assumption.
  intros m3 m4 m5 m6 m7 H1 H2 H3 H4 H5.
  pose proof (on_fatal_held exc f2 s' m3 m4 m5 m6 Hc' H1 H2 H3 H4) as Hf.
  rewrite <- (iteration_fatal fuel f exc f2 Hin) in Hf.
  rewrite (exit_after_loop _ _ _ (mainloop_break _ _ _ Hk Hf)).
  unfold publish. rewrite (call_m_ok _ _ _ tt m7) by exact H5.
  cbn. now rewrite <- app_assoc.
Qed.

(** *** Acquisition and drive *)

(** The drive loop ends normally only by reading the kill flag true, and
    it never drops the state it drives. *)
Lemma drive_normal fuel : forall f fd,
  drive fuel f = (Normal tt, fd) ->
  is_Some (current_state f) ->
  is_Some (current_state fd) /\ _killed (m fd) = true.
Proof.
  induction fuel as [|n IH]; intros f fd; cbn [drive];
    unfold bind, read_m; cbn;
    destruct (_killed (m f)) eqn:Hk; unfold ret; cbn.
  - intros E Hs; inversion E; subst; auto.
  - discriminate.
  - intros E Hs; inversion E; subst; auto.
  - unfold execute_current. intros E [s Hs]. rewrite Hs in E.
    destruct (execute s (m f)) as [[[[]|e] s'] m']; cbn in E;
      [|discriminate].
    apply IH in E; [assumption|]. cbn. eauto.
Qed.

Lemma try_suite_acquired fuel f s m1 :
  _get_state true (m f) = (Ok (Some s), m1) ->
  acquired_assertion s m1 = true ->
  try_suite fuel f =
    after_acquisition fuel (Frame (Some s) m1 (calls f ++ [C_get_state true])).
Proof.
  intros Hg Ha. unfold try_suite, after_acquisition, bind at 1, call_m.
  rewrite Hg; cbn. unfold bind at 1, set_current; cbn.
  unfold bind at 1, read_m; cbn. rewrite Ha.
  unfold bind at 1, py_assert, ret. reflexivity.
Qed.

Lemma acquired_assertion_true s mm :
  State.id s ∈ _busy_states mm ->
  State.id s ∉ _ready_states mm ->
  acquired_assertion s mm = true.
Proof.
  intros Hb Hr. unfold acquired_assertion.
  rewrite (bool_decide_eq_true_2 _ Hb), (bool_decide_eq_false_2 _ Hr).
  reflexivity.
Qed.

Lemma checkpoint_held f s m2 m3 :
  current_state f = Some s ->
  _save s (State.id s) (m f) = (Ok tt, m2) ->
  _revive_state (State.id s) m2 = (Ok tt, m3) ->
  checkpoint f =
    (Normal tt,
     Frame None m3
       (calls f ++ [C_save s (State.id s); C_revive_state (State.id s)])).
Proof.
  intros Hc H1 H2. unfold checkpoint, bind, get_current, call_m, set_current.
  rewrite Hc; cbn. rewrite H1; cbn. rewrite H2; cbn.
  now rewrite <- app_assoc.
Qed.

(** C4.  The unit has acquired a state and drives it; the drive loop ends
    normally at frame [fd], that is, the kill flag was read true while the
    state [s] was held.  When [save] and [revive] return, the unit saves
    [s] under [s]'s own id and then revives that id; nothing else is
    called.  With a one-way kill flag the main loop then ends at once: the
    only further call is the publication of "did_terminate_worker", so no
    other state is acquired.  Under the registry's contract for [revive]
    the id is then in ready and not in busy. *)
Theorem kill_flag_mid_drive_checkpoints_and_exits
    fuel f s0 m1 fd s m2 m3 :
  let f3 :=
    Frame None m3
      (calls fd ++ [C_save s (State.id s); C_revive_state (State.id s)]) in
  _killed (m f) = false ->
  _get_state true (m f) = (Ok (Some s0), m1) ->
  acquired_assertion s0 m1 = true ->
  drive fuel (Frame (Some s0) m1 (calls f ++ [C_get_state true]))
    = (Normal tt, fd) ->
  current_state fd = Some s ->
  _save s (State.id s) (m fd) = (Ok tt, m2) ->
  _revive_state (State.id s) m2 = (Ok tt, m3) ->
  (* the kill flag is one-way *)
  (forall st i mm, _killed mm = true -> _killed (snd (_save st i mm)) = true) ->
  (forall i mm, _killed mm = true -> _killed (snd (_revive_state i mm)) = true) ->
  (* what the registry promises of [revive] *)
  (forall i mm mm',
      _revive_state i mm = (Ok tt, mm') ->
      i ∈ _ready_states mm' /\ i ∉ _busy_states mm') ->
  _killed (m fd) = true
  /\ iteration fuel f = (Normal tt, f3)
  /\ mainloop_and_exit self_id (S fuel) f =
       publish "did_terminate_worker" [AInt self_id] f3
  /\ calls (snd (mainloop_and_exit self_id (S fuel) f)) =
       calls fd ++
         [C_save s (State.id s); C_revive_state (State.id s);
          C_publish "did_terminate_worker" [AInt self_id]]
  /\ State.id s ∈ _ready_states m3
  /\ State.id s ∉ _busy_states m3.
Proof.
  intros f3 Hk Hg Ha Hd Hc Hs Hr Hone_save Hone_revive Hcontract.
  destruct (drive_normal _ _ _ Hd) as [_ Hkd]; [cbn; eauto|].
  assert (Hk3 : _killed m3 = true).
  { specialize (Hone_save s (State.id s) (m fd) Hkd). rewrite Hs in Hone_save.
    specialize (Hone_revive (State.id s) m2 Hone_save).
    now rewrite Hr in Hone_revive. }
  assert (Hit : iteration fuel f = (Normal tt, f3)).
  { apply iteration_normal. unfold inner_try, try_except.
    rewrite (try_suite_acquired fuel f s0 m1 Hg Ha).
    unfold after_acquisition, bind at 1. rewrite Hd.
    unfold bind at 1. rewrite (checkpoint_held fd s m2 m3 Hc Hs Hr).
    reflexivity. }
  assert (Hrun : mainloop_and_exit self_id (S fuel) f =
                 publish "did_terminate_worker" [AInt self_id] f3).
  { apply exit_after_loop. rewrite (mainloop_continue _ _ _ Hk Hit).
    now apply mainloop_killed. }
  destruct (Hcontract _ _ _ Hr) as [Hready Hbusy].
  repeat split; try assumption.
  rewrite Hrun. unfold publish, call_m, f3; cbn.
  destruct (_publish _ _ m3); cbn. now rewrite <- app_assoc.
Qed.

(** *** The fork handler *)

(** Whatever [fork] returns, the handler ends holding no state. *)
Lemma on_concretize_discards_result e p k f r m' :
  _fork (current_state f) e p k (m f) = (Ok r, m') ->
  on_concretize e p k f =
    (Normal tt, Frame None m' (calls f ++ [C_fork (current_state f) e p k])).
Proof.
  intros E. unfold on_concretize, bind, get_current, call_m, set_current.
  cbn. now rewrite E.
Qed.

Lemma fork_signal_loops_back fuel f f1 msg e p k r m' :
  _killed (m f) = false ->
  try_suite fuel f = (Throw (Concretize msg e p k), f1) ->
  _fork (current_state f1) e p k (m f1) = (Ok r, m') ->
  mainloop (S fuel) f =
    mainloop fuel
      (Frame None m' (calls f1 ++ [C_fork (current_state f1) e p k])).
Proof.
  intros Hk Htry Hf. apply mainloop_continue; [assumption|].
  apply iteration_normal.
  rewrite (inner_try_signal fuel f _ f1 (on_concretize e p k) Htry eq_refl).
  now apply on_concretize_discards_result with (r := r).
Qed.

(** *** More fuel changes nothing

    A run that ends within its fuel ends the same way with any larger
    amount. *)

Lemma fuel_refines_refl {A} (p : prog M A) : fuel_refines p p.
Proof. intros f c f' E _. exact E. Qed.

Lemma fuel_refines_bind {A B} (p p' : prog M A) (k k' : A -> prog M B) :
  fuel_refines p p' -> (forall a, fuel_refines (k a) (k' a)) ->
  fuel_refines (bind p k) (bind p' k').
Proof.
  intros Hp Hk f c f'. unfold bind.
  destruct (p f) as [[a|e| |] f1] eqn:E; intros Hr Hc.
  - rewrite (Hp _ _ _ E) by discriminate. now apply Hk.
  - rewrite (Hp _ _ _ E) by discriminate. exact Hr.
  - rewrite (Hp _ _ _ E) by discriminate. exact Hr.
  - injection Hr as <- _. now contradiction Hc.
Qed.

Lemma fuel_refines_try_except {A} (p p' : prog M A) h :
  fuel_refines p p' -> fuel_refines (try_except p h) (try_except p' h).
Proof.
  intros Hp f c f'. unfold try_except.
  destruct (p f) as [[a|e| |] f1] eqn:E; intros Hr Hc.
  - rewrite (Hp _ _ _ E) by discriminate. exact Hr.
  - rewrite (Hp _ _ _ E) by discriminate. exact Hr.
  - rewrite (Hp _ _ _ E) by discriminate. exact Hr.
  - injection Hr as <- _. now contradiction Hc.
Qed.

Lemma drive_fuel_mono n : fuel_refines (drive n) (drive (S n)).
Proof.
  induction n as [|n IH]; cbn [drive]; apply fuel_refines_bind;
    try apply fuel_refines_refl; intros [|]; try apply fuel_refines_refl.
  - intros f c f' E Hc. injection E as <- _. now contradiction Hc.
  - apply fuel_refines_bind; [apply fuel_refines_refl|]. intros _. exact IH.
Qed.

Lemma iteration_fuel_mono n : fuel_refines (iteration n) (iteration (S n)).
Proof.
  unfold iteration, inner_try, try_suite, after_acquisition.
  repeat apply fuel_refines_try_except.
  apply fuel_refines_bind; [apply fuel_refines_refl|]. intros got.
  apply fuel_refines_bind; [apply fuel_refines_refl|]. intros _.
  destruct got as [s|]; [|apply fuel_refines_refl].
  apply fuel_refines_bind; [apply fuel_refines_refl|]. intros ok.
  apply fuel_refines_bind; [apply fuel_refines_refl|]. intros _.
  apply fuel_refines_bind; [apply drive_fuel_mono|]. intros _.
  apply fuel_refines_refl.
Qed.

Lemma mainloop_fuel_mono n : fuel_refines (mainloop n) (mainloop (S n)).
Proof.
  induction n as [|n IH]; intros f c f'.
  - cbn. destruct (_killed (m f)); [auto|].
    intros E Hc. injection E as <- _. now contradiction Hc.
  - cbn [mainloop]. destruct (_killed (m f)); [auto|].
    destruct (iteration n f) as [[[]|e| |] f1] eqn:E; intros Hr Hc.
    + rewrite (iteration_fuel_mono n _ _ _ E) by discriminate.
      now apply IH.
    + now rewrite (iteration_fuel_mono n _ _ _ E) by discriminate.
    + now rewrite (iteration_fuel_mono n _ _ _ E) by discriminate.
    + injection Hr as <- _. now contradiction Hc.
Qed.

Lemma run_fuel_mono n : fuel_refines (run self_id n) (run self_id (S n)).
Proof.
  unfold run, mainloop_and_exit.
  apply fuel_refines_bind; [apply fuel_refines_refl|]. intros _.
  apply fuel_refines_bind; [apply fuel_refines_refl|]. intros _.
  apply fuel_refines_bind; [apply mainloop_fuel_mono|]. intros _.
  apply fuel_refines_refl.
Qed.

End WorkerFacts.

(* ===================================================================== *)
(** * The reference registry *)

Section RegistryFacts.
Variable behaviour : State.t -> advance.
Variable fault : call -> option exn.

Let MM : Manticore Registry.t := Registry.manticore behaviour fault.

Lemma load_id r i : State.id (Registry.load r i) = i.
Proof. unfold Registry.load. now destruct (Registry.states r !! i). Qed.

(** The reference [getState] meets the contract the worker asserts. *)
Lemma get_state_contract wait r s r' :
  Registry.get_state wait r = (Ok (Some s), r') ->
  State.id s ∈ Registry.busy r' /\ State.id s ∉ Registry.ready r'.
Proof.
  unfold Registry.get_state.
  destruct (elements (Registry.ready r)) as [|i l] eqn:E; [discriminate|].
  intros Hg. injection Hg as Hs Hr. rewrite <- Hs, <- Hr, load_id. cbn.
  split.
  - apply elem_of_union_l, elem_of_singleton. reflexivity.
  - intros [_ Hn]%elem_of_difference. apply Hn, elem_of_singleton. reflexivity.
Qed.

Lemma guarded_ok {A} c (op : Registry.t -> result A * Registry.t) r a r' :
  Registry.guarded fault c op r = (Ok a, r') -> op r = (Ok a, r').
Proof. unfold Registry.guarded. now destruct (fault c). Qed.

(** The reference [revive] meets its contract. *)
Lemma revive_state_contract i r r' :
  Registry.revive_state i r = (Ok tt, r') ->
  i ∈ Registry.ready r' /\ i ∉ Registry.busy r'.
Proof.
  unfold Registry.revive_state. case_bool_decide; [|discriminate].
  intros E. injection E as E. rewrite <- E. cbn. split.
  - apply elem_of_union_l, elem_of_singleton. reflexivity.
  - intros [_ Hn]%elem_of_difference. apply Hn, elem_of_singleton. reflexivity.
Qed.

(** C8.  On the reference registry: whenever [getState] hands a state to
    a unit, that state's id is in busy and not in ready, the assertion of
    lines 120-123 evaluates to true, and the unit goes on to drive the
    state. *)
Theorem acquired_state_is_busy_and_not_ready r s r' :
  _get_state (Manticore := MM) true r = (Ok (Some s), r') ->
  (State.id s ∈ Registry.busy r')
  /\ (State.id s ∉ Registry.ready r')
  /\ acquired_assertion (MM := MM) s r' = true
  /\ forall fuel cs log,
      try_suite (MM := MM) fuel (Frame cs r log) =
        after_acquisition (MM := MM) fuel
          (Frame (Some s) r' (log ++ [C_get_state true])).
Proof.
  intros Hg.
  destruct (get_state_contract true r s r' (guarded_ok _ _ _ _ _ Hg))
    as [Hb Hr].
  assert (Ha : acquired_assertion (MM := MM) s r' = true)
    by now apply acquired_assertion_true.
  repeat split; try assumption.
  intros fuel cs log.
  exact (try_suite_acquired (MM := MM) fuel (Frame cs r log) s r' Hg Ha).
Qed.

End RegistryFacts.

(* ===================================================================== *)
(** * The log buffer *)

Section LogBuffer.

Lemma drain_take_drop n : forall q messages,
  LogCaptureWorker.drain n q messages =
    Some (messages ++ (state_pb2.mkLogMessage <$> take n (Queue.items q)),
          Queue.mk (Queue.maxsize q) (drop n (Queue.items q))).
Proof.
  induction n as [|n IH]; intros [cap l] messages; cbn.
  - now rewrite app_nil_r.
  - destruct l as [|x l]; cbn.
    + now rewrite app_nil_r.
    + rewrite IH. cbn. now rewrite <- app_assoc.
Qed.

Lemma full_true q :
  Queue.full q = true ->
  (0 < Queue.maxsize q)%nat
  /\ (Queue.maxsize q <= length (Queue.items q))%nat.
Proof.
  unfold Queue.full, Queue.qsize. intros E.
  apply andb_true_iff in E as [Hpos Hle].
  apply Nat.ltb_lt in Hpos. apply Nat.leb_le in Hle. now split.
Qed.

Lemma full_false q :
  Queue.full q = false ->
  Queue.maxsize q = 0%nat
  \/ (length (Queue.items q) < Queue.maxsize q)%nat.
Proof.
  unfold Queue.full, Queue.qsize. intros E.
  apply andb_false_iff in E as [Hpos|Hle].
  - apply Nat.ltb_ge in Hpos. left. lia.
  - apply Nat.leb_gt in Hle. now right.
Qed.

Lemma not_full q :
  (length (Queue.items q) < Queue.maxsize q)%nat -> Queue.full q = false.
Proof.
  unfold Queue.full, Queue.qsize. intros Hlt.
  apply andb_false_iff. right. now apply Nat.leb_gt.
Qed.

Lemma put_room x q :
  Queue.full q = false ->
  Queue.put x q = Some (Queue.mk (Queue.maxsize q) (Queue.items q ++ [x])).
Proof. intros E. unfold Queue.put. now rewrite E. Qed.

(** C6.  On a log queue within its bound, [log_callback] never blocks: a
    push onto a full queue first removes the oldest record and then
    appends the new one at the end, a push onto any other queue only
    appends; the bound is kept.  [dump_logs] never blocks either: it
    returns the oldest records the queue holds, oldest first, at most 50
    of them, and leaves the others in the queue. *)
Theorem log_buffer_evicts_oldest_and_dump_takes_at_most_50
    (q : Queue.t) (msg : string) :
  Queue.wf q ->
  (exists q',
      LogCaptureWorker.log_callback msg q = Some q'
      /\ Queue.items q' =
           (if Queue.full q then tail (Queue.items q) else Queue.items q)
           ++ [msg]
      /\ Queue.maxsize q' = Queue.maxsize q
      /\ Queue.wf q')
  /\ (forall (bytes : Type) (serialize : state_pb2.MessageList -> bytes),
        LogCaptureWorker.dump_logs serialize q =
          Some (serialize (state_pb2.mkLogMessage <$> take 50 (Queue.items q)),
                true,
                Queue.mk (Queue.maxsize q) (drop 50 (Queue.items q))))
  /\ (length (take 50 (Queue.items q)) <= 50)%nat.
Proof.
  intros Hwf. split; [|split].
  - unfold LogCaptureWorker.log_callback.
    destruct (Queue.full q) eqn:Hfull.
    + destruct (full_true q Hfull) as [Hpos Hle].
      destruct (Queue.items q) as [|x l] eqn:Hl; cbn in Hle; [lia|].
      assert (Hb : (S (length l) <= Queue.maxsize q)%nat).
      { destruct Hwf as [Hz|Hb]; [lia|].
        unfold Queue.qsize in Hb. now rewrite Hl in Hb. }
      assert (Hget : Queue.get q = Some (x, Queue.mk (Queue.maxsize q) l))
        by (unfold Queue.get; now rewrite Hl).
      rewrite Hget. cbn [fmap option_fmap option_map snd mbind option_bind].
      rewrite put_room by (apply not_full; cbn; lia).
      eexists. repeat split.
      right. unfold Queue.qsize. cbn. rewrite length_app. cbn. lia.
    + cbn [mbind option_bind]. rewrite (put_room _ _ Hfull).
      eexists. repeat split.
      unfold Queue.wf, Queue.qsize. cbn. rewrite length_app. cbn.
      destruct (full_false q Hfull) as [Hz|Hlt]; [left|right]; lia.
  - intros bytes serialize. unfold LogCaptureWorker.dump_logs.
    rewrite drain_take_drop. reflexivity.
  - rewrite length_take. lia.
Qed.

End LogBuffer.

(* ===================================================================== *)
(** * The state snapshot *)

Section Snapshot.




(** C7.  A busy state changed list 1.001 seconds ago, that is 1001 whole
    milliseconds; the record rendered for it carries a waiting time of
    1000. *)
Theorem rendered_wait_time_misses_a_millisecond :
  render_state_descriptors (clock_at 1001000) [(5, busy_descriptor)] =
    Some [state_pb2.mkState 5 state_pb2.BUSY "" 3 1000]
  /\ whole_milliseconds (1001000 - 0) = 1001.
Proof. split; vm_compute; reflexivity. Qed.

(** C9.  The log server listens on ("localhost", 3214) and the state
    snapshot server on ("localhost", 3215): the same host, the next port;
    both sockets are created with address reuse allowed. *)
Theorem introspection_servers_listen_on_adjacent_ports :
  server_address LogCaptureWorker.server = ("localhost", 3214)
  /\ server_address StateMonitorWorker.server = ("localhost", 3215)
  /\ fst (server_address LogCaptureWorker.server) = HOST
  /\ fst (server_address StateMonitorWorker.server) = HOST
  /\ snd (server_address StateMonitorWorker.server) =
       snd (server_address LogCaptureWorker.server) + 1
  /\ allow_reuse_address LogCaptureWorker.server = true
  /\ allow_reuse_address StateMonitorWorker.server = true.
Proof. repeat split. Qed.

End Snapshot.

(* ===================================================================== *)
(** * The worker on the reference registry *)

Section Runs.

(** C1.  State 0 raises a fork signal with two branches; the registry's
    [fork] puts successor 2 in ready and hands successor 1 back to the
    unit.  The unit does not continue with successor 1: its next call is
    the acquisition, which yields state 2.  When the run ends successor 1
    has never been advanced and sits in no list. *)
Theorem successor_handed_back_by_fork_is_dropped :
  let MM := Registry.manticore fork_then_finish no_fault in
  let r1 := snd (Registry.get_state true (Registry.seed [S0])) in
  let S2 := State.mk 2 None 0 in
  let S2' := State.set_terminated_by (TerminateState "done") S2 in
  let outcome := run (MM := MM) 7 10 (start (Registry.seed [S0])) in
  fst (Registry.fork (Some S0) 2 "keep" 0 r1) = Ok (Some 1)
  /\ fst outcome = Normal tt
  /\ calls (snd outcome) =
       [C_publish "will_start_worker" [AInt 7];
        C_get_state true;
        C_execute S0;
        C_fork (Some S0) 2 "keep" 0;
        C_get_state true;
        C_execute S2;
        C_publish "will_terminate_state"
          [AState (Some S2); AExn (TerminateState "done")];
        C_save S2' 2;
        C_terminate_state 2;
        C_publish "did_terminate_state"
          [AState (Some S2'); AExn (TerminateState "done")];
        C_get_state true;
        C_publish "did_terminate_worker" [AInt 7]]
  /\ elements (Registry.ready (m (snd outcome))) = []
  /\ elements (Registry.busy (m (snd outcome))) = []
  /\ elements (Registry.terminated (m (snd outcome))) = [2]
  /\ elements (Registry.killed (m (snd outcome))) = [].
Proof. repeat split; vm_compute; reflexivity. Qed.

Lemma unrecoverable_failure_witness :
  let MM := Registry.manticore (always (Signal (OtherError "boom"))) no_fault in
  let r1 := snd (Registry.get_state true (Registry.seed [S0])) in
  mainloop_and_exit (MM := MM) 7 6 (start (Registry.seed [S0])) =
    (Normal tt,
     Frame None (snd (Registry.kill_state 0 (snd (Registry.save S0 0 r1))))
       [C_get_state true;
        C_execute S0;
        C_publish "will_kill_state"
          [AState (Some S0); AExn (OtherError "boom")];
        C_save S0 0;
        C_kill_state 0;
        C_publish "did_kill_state"
          [AState (Some S0); AExn (OtherError "boom")];
        C_publish "did_terminate_worker" [AInt 7]]).
Proof.
  intros MM r1.
  pose (f := start (Registry.seed [S0])).
  pose (f1 := snd (inner_try (MM := MM) 5 f)).
  pose (m3 := snd (Registry.save S0 0 (m f1))).
  pose (m4 := snd (Registry.kill_state 0 m3)).
  apply (unrecoverable_failure_kills_state_and_retires_unit (MM := MM)
           7 5 f f1 (OtherError "boom") S0 (m f1) m3 m4 m4 m4);
    reflexivity.
Defined.

Lemma failure_without_state_witness :
  let MM := Registry.manticore (always Step) get_state_fails in
  calls (snd (mainloop_and_exit (MM := MM) 7 6 (start (Registry.seed [S0]))))
    = [C_get_state true; C_publish "did_terminate_worker" [AInt 7]]
  /\ m (snd (mainloop_and_exit (MM := MM) 7 6 (start (Registry.seed [S0]))))
    = Registry.seed [S0].
Proof.
  intros MM.
  pose (f := start (Registry.seed [S0])).
  pose (f1 := snd (inner_try (MM := MM) 5 f)).
  destruct (failure_without_state_only_retires_unit (MM := MM)
              7 5 f f1 (OtherError "registry unavailable")
              eq_refl eq_refl eq_refl) as (_ & _ & Hcalls & Hm).
  split; [exact Hcalls | exact Hm].
Defined.

Lemma terminate_signal_witness :
  let MM := Registry.manticore (always (Signal (TerminateState "done"))) no_fault in
  let S0' := State.set_terminated_by (TerminateState "done") S0 in
  let r1 := snd (Registry.get_state true (Registry.seed [S0])) in
  let r3 := snd (Registry.terminate_state 0 (snd (Registry.save S0' 0 r1))) in
  iteration (MM := MM) 5 (start (Registry.seed [S0])) =
    (Normal tt,
     Frame None r3
       [C_get_state true;
        C_execute S0;
        C_publish "will_terminate_state"
          [AState (Some S0); AExn (TerminateState "done")];
        C_save S0' 0;
        C_terminate_state 0;
        C_publish "did_terminate_state"
          [AState (Some S0'); AExn (TerminateState "done")]])
  /\ exists l,
      calls (snd (mainloop_and_exit (MM := MM) 7 6 (start (Registry.seed [S0]))))
      = [C_get_state true;
         C_execute S0;
         C_publish "will_terminate_state"
           [AState (Some S0); AExn (TerminateState "done")];
         C_save S0' 0;
         C_terminate_state 0;
         C_publish "did_terminate_state"
           [AState (Some S0'); AExn (TerminateState "done")]]
        ++ C_get_state true :: l.
Proof.
  intros MM S0' r1 r3.
  pose (f := start (Registry.seed [S0])).
  pose (f1 := snd (try_suite (MM := MM) 5 f)).
  pose (m3 := snd (Registry.save S0' 0 (m f1))).
  destruct (terminate_signal_is_recorded_and_unit_loops_back (MM := MM)
              7 5 f f1 "done" S0 (m f1) m3 r3 r3
              eq_refl eq_refl eq_refl eq_refl eq_refl eq_refl eq_refl)
    as (_ & Hit & _ & Hnext).
  split; [exact Hit | exact (Hnext eq_refl 4%nat eq_refl)].
Defined.

Lemma failure_inside_signal_handler_witness :
  let MM := Registry.manticore (always (Signal (TerminateState "done")))
              terminate_fails in
  let S0' := State.set_terminated_by (TerminateState "done") S0 in
  let r1 := snd (Registry.get_state true (Registry.seed [S0])) in
  let r3 := snd (Registry.kill_state 0
                   (snd (Registry.save S0' 0 (snd (Registry.save S0' 0 r1))))) in
  mainloop_and_exit (MM := MM) 7 6 (start (Registry.seed [S0])) =
    (Normal tt,
     Frame None r3
       [C_get_state true;
        C_execute S0;
        C_publish "will_terminate_state"
          [AState (Some S0); AExn (TerminateState "done")];
        C_save S0' 0;
        C_terminate_state 0;
        C_publish "will_kill_state"
          [AState (Some S0'); AExn (OtherError "registry unavailable")];
        C_save S0' 0;
        C_kill_state 0;
        C_publish "did_kill_state"
          [AState (Some S0'); AExn (OtherError "registry unavailable")];
        C_publish "did_terminate_worker" [AInt 7]]).
Proof.
  intros MM S0' r1 r3.
  pose (f := start (Registry.seed [S0])).
  pose (f1 := snd (try_suite (MM := MM) 5 f)).
  pose (sig := TerminateState "done").
  pose (f2 := snd (on_terminate (MM := MM) sig f1)).
  destruct (failure_inside_signal_handler_is_fatal (MM := MM)
              7 5 f sig f1 S0 (on_terminate sig) (OtherError "registry unavailable")
              f2 eq_refl eq_refl eq_refl eq_refl eq_refl)
    as (s' & Hheld & _ & _ & Hrun).
  assert (Hs : S0' = s') by (injection Hheld as E; exact E).
  destruct Hs.
  pose (m4 := snd (Registry.save S0' 0 (m f2))).
  exact (Hrun (m f2) m4 r3 r3 r3 eq_refl eq_refl eq_refl eq_refl eq_refl).
Defined.

Lemma kill_flag_mid_drive_witness :
  let MM := Registry.manticore (always StepThenKill) no_fault in
  let S0' := State.mk 0 None 1 in
  calls (snd (mainloop_and_exit (MM := MM) 7 6 (start (Registry.seed [S0]))))
    = [C_get_state true; C_execute S0; C_save S0' 0; C_revive_state 0;
       C_publish "did_terminate_worker" [AInt 7]]
  /\ (0 ∈ Registry.ready (m (snd (mainloop_and_exit (MM := MM) 7 6
                                   (start (Registry.seed [S0]))))))
  /\ (0 ∉ Registry.busy (m (snd (mainloop_and_exit (MM := MM) 7 6
                                  (start (Registry.seed [S0])))))).
Proof.
  intros MM S0'.
  pose (f := start (Registry.seed [S0])).
  pose (m1 := snd (Registry.get_state true (Registry.seed [S0]))).
  pose (fd := snd (drive (MM := MM) 5 (Frame (Some S0) m1 [C_get_state true]))).
  pose (m2 := snd (Registry.save S0' 0 (m fd))).
  pose (m3 := snd (Registry.revive_state 0 m2)).
  destruct (kill_flag_mid_drive_checkpoints_and_exits (MM := MM)
              7 5 f S0 m1 fd S0' m2 m3
              eq_refl eq_refl eq_refl eq_refl eq_refl eq_refl eq_refl)
    as (_ & _ & _ & Hcalls & Hready & Hbusy).
  - intros st i mm Hk. exact Hk.
  - intros i mm Hk. cbn. unfold Registry.guarded, Registry.revive_state. cbn.
    destruct (bool_decide (i ∈ Registry.busy mm)); exact Hk.
  - intros i mm mm' E. apply (revive_state_contract i mm mm').
    exact (guarded_ok no_fault (C_revive_state i) _ _ _ _ E).
  - split; [exact Hcalls | split; [exact Hready | exact Hbusy]].
Defined.

Lemma acquired_state_witness :
  let MM := Registry.manticore (always Step) no_fault in
  let r1 := snd (Registry.get_state true (Registry.seed [S0])) in
  (0 ∈ Registry.busy r1)
  /\ (0 ∉ Registry.ready r1)
  /\ acquired_assertion (MM := MM) S0 r1 = true.
Proof.
  intros MM r1.
  destruct (acquired_state_is_busy_and_not_ready (always Step) no_fault
              (Registry.seed [S0]) S0 r1 eq_refl)
    as (Hbusy & Hready & Hassert & _).
  split; [exact Hbusy | split; [exact Hready | exact Hassert]].
Defined.

Lemma log_buffer_witness :
  Queue.wf full_queue
  /\ exists q',
      LogCaptureWorker.log_callback "third" full_queue = Some q'
      /\ Queue.items q' = ["second"; "third"].
Proof.
  assert (Hwf : Queue.wf full_queue) by (right; cbn; lia).
  split; [exact Hwf|].
  destruct (log_buffer_evicts_oldest_and_dump_takes_at_most_50
              full_queue "third" Hwf) as [(q' & Hpush & Hitems & _) _].
  exists q'. split; [exact Hpush | exact Hitems].
Defined.

End Runs.

(* ===================================================================== *)
(** * Further properties of the run-loop *)

Ltac finish :=
  repeat split; intros;
  first [assumption | congruence | discriminate | reflexivity].

(** Case analysis on the outcome of the next call. *)
Ltac next_call :=
  match goal with
  | |- context [_publish ?a ?b ?c] => destruct (_publish a b c) as [[[]|?] ?]
  | |- context [_save ?a ?b ?c] => destruct (_save a b c) as [[[]|?] ?]
  | |- context [_revive_state ?a ?b] =>
      destruct (_revive_state a b) as [[[]|?] ?]
  | |- context [_terminate_state ?a ?b] =>
      destruct (_terminate_state a b) as [[[]|?] ?]
  | |- context [_kill_state ?a ?b] => destruct (_kill_state a b) as [[[]|?] ?]
  | |- context [_fork ?a ?b ?c ?d ?e] =>
      destruct (_fork a b c d e) as [[?|?] ?]
  end.

Ltac crunch f :=
  unfold publish, bind, get_current, set_current, call_m, read_m, raise,
    break_loop, ret, py_assert, of_result;
  cbn; destruct (current_state f) eqn:?; cbn; repeat (next_call; cbn).

Section WorkerOutcomes.
Context {M : Type} {MM : Manticore M}.
Variable self_id : Z.

Lemma drive_never_breaks fuel : forall f, fst (drive fuel f) <> BreakLoop.
Proof.
  induction fuel as [|n IH]; intros f; cbn [drive]; unfold bind, read_m; cbn;
    destruct (_killed (m f)); unfold ret, out_of_fuel; cbn; try discriminate.
  unfold execute_current.
  destruct (current_state f) as [s|]; cbn; [|discriminate].
  destruct (execute s (m f)) as [[[[]|e] s'] m']; cbn; [apply IH | discriminate].
Qed.

(** X1.  The drive loop calls nothing but [execute]; it ends normally only
    with the kill flag up, it never breaks out of the main loop, and it
    never lets go of the state it drives. *)
Theorem drive_only_advances_the_state fuel : forall f,
  exists l,
    calls (snd (drive fuel f)) = calls f ++ l
    /\ Forall is_execute l
    /\ (fst (drive fuel f) = Normal tt -> _killed (m (snd (drive fuel f))) = true)
    /\ (is_Some (current_state f) ->
        is_Some (current_state (snd (drive fuel f))))
    /\ fst (drive fuel f) <> BreakLoop.
Proof.
  induction fuel as [|n IH]; intros f; cbn [drive]; unfold bind, read_m; cbn;
    destruct (_killed (m f)) eqn:Hk; unfold ret, out_of_fuel; cbn;
    try (exists []; rewrite app_nil_r; repeat split; auto; discriminate).
  unfold execute_current.
  destruct (current_state f) as [s|] eqn:Hc; cbn.
  - destruct (execute s (m f)) as [[[[]|e] s'] m'] eqn:He; cbn.
    + destruct (IH (Frame (Some s') m' (calls f ++ [C_execute s])))
        as (l & Hl & Hex & Hn & Hs & Hb).
      exists (C_execute s :: l). cbn in Hl. rewrite Hl, <- app_assoc.
      repeat split; auto;
        try (constructor; [exact I | exact Hex]);
        try (intros _; apply Hs; cbn; eauto).
    + exists [C_execute s]. repeat split; auto; try discriminate;
        try (repeat constructor); try (intros _; eauto).
  - exists []. rewrite app_nil_r. repeat split; auto; try discriminate.
    intros [s Hs]. discriminate.
Qed.


Lemma checkpoint_outcome f c f' :
  checkpoint f = (c, f') ->
  c <> BreakLoop /\ (c = Normal tt -> current_state f' = None).
Proof.
  unfold checkpoint. crunch f; intros E; inversion E; subst; finish.
Qed.

Lemma after_acquisition_outcome fuel f c f' :
  after_acquisition fuel f = (c, f') ->
  c <> BreakLoop /\ (c = Normal tt -> current_state f' = None).
Proof.
  unfold after_acquisition, bind.
  pose proof (drive_never_breaks fuel f) as Hb.
  destruct (drive fuel f) as [[[]|e| |] fd]; cbn in Hb;
    try (intros E; inversion E; subst; finish).
  destruct (checkpoint fd) as [[[]|e| |] fc] eqn:Ec;
    destruct (checkpoint_outcome _ _ _ Ec) as [Hcb Hcn];
    try (intros E; inversion E; subst; finish).
  unfold get_current, py_assert. rewrite (Hcn eq_refl). cbn.
  intros E; inversion E; subst. split; [discriminate | intros _; now apply Hcn].
Qed.

Lemma try_suite_outcome fuel f c f' :
  try_suite fuel f = (c, f') ->
  (c = Normal tt \/ c = BreakLoop) -> current_state f' = None.
Proof.
  unfold try_suite, bind, call_m.
  destruct (_get_state true (m f)) as [[[s|]|e] m1]; cbn.
  - unfold read_m, py_assert; cbn.
    destruct (acquired_assertion s m1); cbn.
    + intros E. destruct (after_acquisition_outcome _ _ _ _ E) as [Hb Hn].
      intros [E'|E']; [now apply Hn | now contradiction Hb].
    + intros E; inversion E; subst. intros [E'|E']; discriminate.
  - intros E; inversion E; subst. reflexivity.
  - intros E; inversion E; subst. intros [E'|E']; discriminate.
Qed.

Lemma signal_handler_outcome e k f c f' :
  signal_handler e = Some k ->
  k f = (c, f') ->
  c <> BreakLoop /\ (c = Normal tt -> current_state f' = None).
Proof.
  destruct e; cbn; intros E; inversion E; subst; clear E.
  - unfold on_concretize. crunch f; intros E; inversion E; subst; finish.
  - unfold on_terminate. crunch f; intros E; inversion E; subst; finish.
Qed.

Lemma on_fatal_outcome exc f c f' :
  on_fatal exc f = (c, f') ->
  c <> Normal tt /\ c <> OutOfFuel
  /\ (c = BreakLoop -> current_state f' = None).
Proof.
  unfold on_fatal. crunch f; intros E; inversion E; subst; finish.
Qed.

Lemma inner_try_outcome fuel f c f' :
  inner_try fuel f = (c, f') ->
  (c = Normal tt \/ c = BreakLoop) -> current_state f' = None.
Proof.
  unfold inner_try, try_except.
  destruct (try_suite fuel f) as [[[]|e| |] f1] eqn:Et;
    try (intros E; inversion E; subst;
         apply (try_suite_outcome _ _ _ _ Et)).
  destruct (signal_handler e) as [k|] eqn:Hh.
  - intros E. destruct (signal_handler_outcome e k f1 _ _ Hh E) as [Hb Hn].
    intros [E'|E']; [now apply Hn | now contradiction Hb].
  - intros E; inversion E; subst. intros [E'|E']; discriminate.
Qed.

Lemma iteration_outcome fuel f c f' :
  iteration fuel f = (c, f') ->
  (c = Normal tt \/ c = BreakLoop) -> current_state f' = None.
Proof.
  unfold iteration, try_except.
  destruct (inner_try fuel f) as [[[]|e| |] f1] eqn:Ei;
    try (intros E; inversion E; subst;
         apply (inner_try_outcome _ _ _ _ Ei)).
  intros E. destruct (on_fatal_outcome _ _ _ _ E) as (Hn & _ & Hb).
  intros [E'|E']; [now contradiction Hn | now apply Hb].
Qed.

(** X2.  Whenever an iteration of the main loop ends, normally or by
    [break], the unit holds no state: it never carries a state from one
    iteration into the next, nor out of the loop. *)
Theorem iteration_ends_holding_no_state fuel f :
  (fst (iteration fuel f) = Normal tt \/ fst (iteration fuel f) = BreakLoop) ->
  current_state (snd (iteration fuel f)) = None.
Proof.
  destruct (iteration fuel f) as [c f'] eqn:E.
  exact (iteration_outcome fuel f c f' E).
Qed.

End WorkerOutcomes.

Section WorkerEdges.
Context {M : Type} {MM : Manticore M}.
Variable self_id : Z.

Lemma mainloop_holds_nothing fuel : forall f f',
  current_state f = None ->
  mainloop fuel f = (Normal tt, f') ->
  current_state f' = None.
Proof.
  induction fuel as [|n IH]; intros f f' Hc; cbn [mainloop];
    destruct (_killed (m f)); try (intros E; inversion E; subst; assumption).
  destruct (iteration n f) as [[[]|e| |] f1] eqn:Ei; try discriminate.
  - apply IH. apply (iteration_outcome _ _ _ _ Ei). now left.
  - intros E; inversion E; subst.
    apply (iteration_outcome _ _ _ _ Ei). now right.
Qed.

(** X3.  A run that returns has published "will_start_worker" first and
    "did_terminate_worker" last, and ends holding no state. *)
Theorem run_is_bracketed_by_lifecycle_events fuel f :
  fst (run self_id fuel f) = Normal tt ->
  current_state (snd (run self_id fuel f)) = None
  /\ exists l,
      calls (snd (run self_id fuel f)) =
        calls f
        ++ C_publish "will_start_worker" [AInt self_id]
           :: l ++ [C_publish "did_terminate_worker" [AInt self_id]].
Proof.
  unfold run, mainloop_and_exit, bind, set_current, publish, call_m. cbn.
  destruct (_publish "will_start_worker" _ _) as [[[]|e] m1]; cbn;
    [|discriminate].
  match goal with
  | |- context [mainloop fuel ?g] =>
      destruct (grows_mainloop fuel g) as [l Hl];
      pose proof (mainloop_holds_nothing fuel g) as Hn;
      destruct (mainloop fuel g) as [[[]|e| |] f2]; cbn in *;
      try discriminate
  end.
  destruct (_publish "did_terminate_worker" _ _) as [[[]|e] m2]; cbn;
    [|discriminate].
  intros _. split; [now apply Hn|].
  exists l. rewrite Hl. now rewrite <- !app_assoc.
Qed.

(** X4.  A unit started when the kill flag is already up publishes its two
    lifecycle events and calls nothing else, whatever the fuel: it never
    asks for a state. *)
Theorem unit_started_after_kill_acquires_nothing fuel f m1 m2 :
  _publish "will_start_worker" [AInt self_id] (m f) = (Ok tt, m1) ->
  _killed m1 = true ->
  _publish "did_terminate_worker" [AInt self_id] m1 = (Ok tt, m2) ->
  run self_id fuel f =
    (Normal tt,
     Frame None m2
       (calls f ++
          [C_publish "will_start_worker" [AInt self_id];
           C_publish "did_terminate_worker" [AInt self_id]])).
Proof.
  intros H1 Hk H2.
  unfold run, mainloop_and_exit, bind, set_current, publish, call_m. cbn.
  rewrite H1. cbn. rewrite mainloop_killed by exact Hk. cbn.
  rewrite H2. cbn. now rewrite <- app_assoc.
Qed.

(** X5.  When the acquisition yields no state the unit leaves the loop at
    once: nothing is saved, moved or announced, and its only further call
    is the publication of "did_terminate_worker". *)
Theorem exhausted_registry_retires_unit fuel f m1 m2 :
  _killed (m f) = false ->
  _get_state true (m f) = (Ok None, m1) ->
  _publish "did_terminate_worker" [AInt self_id] m1 = (Ok tt, m2) ->
  mainloop_and_exit self_id (S fuel) f =
    (Normal tt,
     Frame None m2
       (calls f ++
          [C_get_state true;
           C_publish "did_terminate_worker" [AInt self_id]])).
Proof.
  intros Hk Hg Hp.
  assert (Hit : iteration fuel f =
                (BreakLoop, Frame None m1 (calls f ++ [C_get_state true]))).
  { unfold iteration, inner_try, try_except, try_suite, bind, call_m.
    rewrite Hg. reflexivity. }
  rewrite (exit_after_loop _ _ _ _ (mainloop_break _ _ _ Hk Hit)).
  unfold publish. rewrite (call_m_ok _ _ _ tt m2) by exact Hp.
  cbn. now rewrite <- app_assoc.
Qed.

(** X6.  If the state handed out by the acquisition is not in busy, or is
    still in ready, the assertion of lines 120-123 fails: the state is
    never advanced, the failure is handled as unrecoverable (the state is
    announced, saved under its id and moved to killed, with the
    [AssertionError] as the error), and the unit retires. *)
Theorem failed_ownership_assertion_kills_unexecuted_state
    fuel f s m1 m2 m3 m4 m5 m6 :
  _killed (m f) = false ->
  _get_state true (m f) = (Ok (Some s), m1) ->
  acquired_assertion s m1 = false ->
  _publish "will_kill_state" [AState (Some s); AExn AssertionError] m1
    = (Ok tt, m2) ->
  _save s (State.id s) m2 = (Ok tt, m3) ->
  _kill_state (State.id s) m3 = (Ok tt, m4) ->
  _publish "did_kill_state" [AState (Some s); AExn AssertionError] m4
    = (Ok tt, m5) ->
  _publish "did_terminate_worker" [AInt self_id] m5 = (Ok tt, m6) ->
  mainloop_and_exit self_id (S fuel) f =
    (Normal tt,
     Frame None m6
       (calls f ++
          [C_get_state true;
           C_publish "will_kill_state" [AState (Some s); AExn AssertionError];
           C_save s (State.id s);
           C_kill_state (State.id s);
           C_publish "did_kill_state" [AState (Some s); AExn AssertionError];
           C_publish "did_terminate_worker" [AInt self_id]])).
Proof.
  intros Hk Hg Ha H1 H2 H3 H4 H5.
  assert (Htry : inner_try fuel f =
                 (Throw AssertionError,
                  Frame (Some s) m1 (calls f ++ [C_get_state true]))).
  { apply inner_try_failure; [|reflexivity].
    unfold try_suite, bind, call_m. rewrite Hg. cbn.
    unfold read_m. cbn. rewrite Ha. reflexivity. }
  pose proof (on_fatal_held AssertionError
                (Frame (Some s) m1 (calls f ++ [C_get_state true]))
                s m2 m3 m4 m5 eq_refl H1 H2 H3 H4) as Hf.
  rewrite <- (iteration_fatal fuel f _ _ Htry) in Hf.
  rewrite (exit_after_loop _ _ _ _ (mainloop_break _ _ _ Hk Hf)).
  unfold publish. rewrite (call_m_ok _ _ _ tt m6) by exact H5.
  cbn. now rewrite <- !app_assoc.
Qed.

(** X7.  A failure of one of the fatal guard's own calls is not handled:
    the exception leaves the loop and the run with the state still held and
    at most the guard's calls made, so "did_terminate_worker" is not
    published. *)
Theorem failure_inside_fatal_guard_escapes_run fuel f exc f1 e' f2 :
  _killed (m f) = false ->
  inner_try fuel f = (Throw exc, f1) ->
  on_fatal exc f1 = (Throw e', f2) ->
  mainloop_and_exit self_id (S fuel) f = (Throw e', f2)
  /\ exists s k,
      current_state f1 = Some s
      /\ current_state f2 = Some s
      /\ (1 <= k <= 4)%nat
      /\ calls f2 =
           calls f1 ++
             take k
               [C_publish "will_kill_state" [AState (Some s); AExn exc];
                C_save s (State.id s);
                C_kill_state (State.id s);
                C_publish "did_kill_state" [AState (Some s); AExn exc]].
Proof.
  intros Hk Htry Hf. split.
  - unfold mainloop_and_exit, bind. cbn [mainloop]. rewrite Hk.
    rewrite (iteration_fatal _ _ _ _ Htry), Hf. reflexivity.
  - revert Hf. unfold on_fatal. crunch f1; intros E; inversion E; subst.
    + exists t, 4%nat. repeat split; try lia; try assumption.
      cbn. now rewrite <- !app_assoc.
    + exists t, 3%nat. repeat split; try lia; try assumption.
      cbn. now rewrite <- !app_assoc.
    + exists t, 2%nat. repeat split; try lia; try assumption.
      cbn. now rewrite <- !app_assoc.
    + exists t, 1%nat. repeat split; try lia; try assumption.
Qed.

(** X8.  After a fork signal, whatever [fork] returns (a successor id or
    none) the unit does the same: one call of [fork] with the state it
    holds and the expression, policy and setter of the signal, after which
    it holds no state and the loop goes on. *)
Theorem fork_result_is_never_used fuel f f1 msg e p k r m' :
  _killed (m f) = false ->
  try_suite fuel f = (Throw (Concretize msg e p k), f1) ->
  _fork (current_state f1) e p k (m f1) = (Ok r, m') ->
  iteration fuel f =
    (Normal tt, Frame None m' (calls f1 ++ [C_fork (current_state f1) e p k]))
  /\ mainloop (S fuel) f =
       mainloop fuel
         (Frame None m' (calls f1 ++ [C_fork (current_state f1) e p k])).
Proof.
  intros Hk Htry Hf.
  assert (Hit : iteration fuel f =
                (Normal tt,
                 Frame None m' (calls f1 ++ [C_fork (current_state f1) e p k]))).
  { apply iteration_normal.
    rewrite (inner_try_signal fuel f _ f1 (on_concretize e p k) Htry eq_refl).
    now apply on_concretize_discards_result with (r := r). }
  split; [exact Hit | now apply mainloop_continue].
Qed.

(** X9.  A terminate signal raised by the acquisition itself finds no state
    to record it on: "will_terminate_state" is published without a state,
    the handler then fails, and the unit leaves the loop without saving,
    moving or killing anything. *)
Theorem terminate_signal_during_acquisition_retires_unit
    fuel f msg m1 m2 :
  _killed (m f) = false ->
  current_state f = None ->
  _get_state true (m f) = (Raised (TerminateState msg), m1) ->
  _publish "will_terminate_state" [AState None; AExn (TerminateState msg)] m1
    = (Ok tt, m2) ->
  iteration fuel f =
    (BreakLoop,
     Frame None m2
       (calls f ++
          [C_get_state true;
           C_publish "will_terminate_state"
             [AState None; AExn (TerminateState msg)]]))
  /\ mainloop (S fuel) f =
       (Normal tt,
        Frame None m2
          (calls f ++
             [C_get_state true;
              C_publish "will_terminate_state"
                [AState None; AExn (TerminateState msg)]])).
Proof.
  intros Hk Hc Hg Hp.
  assert (Hit : iteration fuel f =
    (BreakLoop,
     Frame None m2
       (calls f ++
          [C_get_state true;
           C_publish "will_terminate_state"
             [AState None; AExn (TerminateState msg)]]))).
  { unfold iteration, inner_try, try_except, try_suite, bind at 1, call_m.
    rewrite Hg. cbn.
    unfold on_terminate, bind, get_current, publish, call_m. cbn.
    rewrite Hc, Hp. cbn. unfold on_fatal, bind, get_current. cbn.
    now rewrite <- app_assoc. }
  split; [exact Hit | now apply mainloop_break].
Qed.

End WorkerEdges.

(* ===================================================================== *)
(** * Invariants of the call log *)

Section Appending.
Context {M : Type} {MM : Manticore M}.
Variable P : list call -> Prop.
Hypothesis P_nil : P [].
Hypothesis P_app : forall l1 l2, P l1 -> P l2 -> P (l1 ++ l2).

Lemma appends_pure {A} (p : prog M A) :
  (forall f, calls (snd (p f)) = calls f) -> appends P p.
Proof. intros E f. exists []. rewrite E, app_nil_r. auto. Qed.

Lemma appends_call {A} c (op : M -> result A * M) :
  P [c] -> appends P (call_m c op).
Proof. intros Hc f. exists [c]. unfold call_m. now destruct (op (m f)). Qed.

Lemma appends_bind {A B} (p : prog M A) (k : A -> prog M B) :
  appends P p -> (forall a, appends P (k a)) -> appends P (bind p k).
Proof.
  intros Hp Hk f. destruct (Hp f) as (l & Hl & HP). unfold bind.
  destruct (p f) as [[a|e| |] f']; cbn in *; eauto.
  destruct (Hk a f') as (l' & Hl' & HP'). exists (l ++ l').
  rewrite Hl', Hl, app_assoc. auto.
Qed.

Lemma appends_try_except {A} (p : prog M A) h :
  appends P p -> (forall e k, h e = Some k -> appends P k) ->
  appends P (try_except p h).
Proof.
  intros Hp Hh f. destruct (Hp f) as (l & Hl & HP). unfold try_except.
  destruct (p f) as [[a|e| |] f']; cbn in *; eauto.
  destruct (h e) as [k|] eqn:E; cbn; eauto.
  destruct (Hh e k E f') as (l' & Hl' & HP'). exists (l ++ l').
  rewrite Hl', Hl, app_assoc. auto.
Qed.

Hypothesis P_get_state : forall w, P [C_get_state w].
Hypothesis P_execute : forall s, P [C_execute s].
Hypothesis P_fork : forall s e p k, P [C_fork s e p k].
Hypothesis P_checkpoint : appends P (checkpoint (M := M)).
Hypothesis P_on_terminate : forall e, appends P (on_terminate (M := M) e).

Lemma appends_execute_current : appends P (execute_current (M := M)).
Proof.
  intros f. unfold execute_current.
  destruct (current_state f) as [s|]; [|exists []; cbn; rewrite app_nil_r; auto].
  destruct (execute s (m f)) as [[r s'] m']. exists [C_execute s]. auto.
Qed.

Lemma appends_drive fuel : appends P (drive (M := M) fuel).
Proof.
  induction fuel as [|n IH]; cbn [drive];
    (apply appends_bind; [now apply appends_pure|]); intros [|];
    try (now apply appends_pure).
  apply appends_bind; [apply appends_execute_current | intros _; exact IH].
Qed.

Lemma appends_inner_try fuel : appends P (inner_try (M := M) fuel).
Proof.
  unfold inner_try. apply appends_try_except.
  - unfold try_suite.
    apply appends_bind; [apply appends_call, P_get_state|]. intros got.
    apply appends_bind; [now apply appends_pure|]. intros _.
    destruct got as [s|]; [|now apply appends_pure].
    apply appends_bind; [now apply appends_pure|]. intros ok.
    apply appends_bind; [destruct ok; now apply appends_pure|]. intros _.
    unfold after_acquisition.
    apply appends_bind; [apply appends_drive|]. intros _.
    apply appends_bind; [apply P_checkpoint|]. intros _.
    apply appends_bind; [now apply appends_pure|]. intros cur.
    unfold py_assert. destruct (bool_decide (cur = None));
      now apply appends_pure.
  - intros e k E. destruct e; cbn in E; inversion E; subst.
    + unfold on_concretize.
      apply appends_bind; [now apply appends_pure|]. intros cur.
      apply appends_bind; [apply appends_call, P_fork|]. intros _.
      now apply appends_pure.
    + apply P_on_terminate.
Qed.

Hypothesis P_publish : forall n a, P [C_publish n a].
Hypothesis P_on_fatal : forall e, appends P (on_fatal (M := M) e).

Lemma appends_iteration fuel : appends P (iteration (M := M) fuel).
Proof.
  unfold iteration. apply appends_try_except; [apply appends_inner_try|].
  intros e k E. inversion E; subst. apply P_on_fatal.
Qed.

Lemma appends_mainloop fuel : appends P (mainloop (M := M) fuel).
Proof.
  induction fuel as [|n IH]; intros f; cbn [mainloop];
    (destruct (_killed (m f)); [exists []; cbn; rewrite app_nil_r; auto|]).
  - exists []. cbn. rewrite app_nil_r. auto.
  - destruct (appends_iteration n f) as (l & Hl & HP).
    destruct (iteration n f) as [[[]|e| |] f']; cbn in *; eauto.
    destruct (IH f') as (l' & Hl' & HP'). exists (l ++ l').
    rewrite Hl', Hl, app_assoc. auto.
Qed.

Lemma appends_run self_id fuel : appends P (run (M := M) self_id fuel).
Proof.
  unfold run, mainloop_and_exit, publish.
  apply appends_bind; [now apply appends_pure|]. intros _.
  apply appends_bind; [apply appends_call, P_publish|]. intros _.
  apply appends_bind; [apply appends_mainloop|]. intros _.
  apply appends_call, P_publish.
Qed.

End Appending.

(** A run of calls named explicitly, for the three suites that save and
    move. *)
Ltac segment :=
  first
    [ exists []; split; [now rewrite app_nil_r|]
    | eexists; split; [rewrite <- ?app_assoc; reflexivity|] ].

Section LogInvariants.
Context {M : Type} {MM : Manticore M}.

Lemma Forall_app_intro {A} (Q : A -> Prop) (l1 l2 : list A) :
  Forall Q l1 -> Forall Q l2 -> Forall Q (l1 ++ l2).
Proof. intros H1 H2. apply Forall_app. now split. Qed.

(** *** Saves *)

Lemma own_id_checkpoint :
  appends (Forall saves_under_own_id) (checkpoint (M := M)).
Proof.
  intros f. unfold checkpoint. crunch f; segment; repeat constructor.
Qed.

Lemma own_id_on_terminate e :
  appends (Forall saves_under_own_id) (on_terminate (M := M) e).
Proof.
  intros f. unfold on_terminate. crunch f; segment; repeat constructor.
Qed.

Lemma own_id_on_fatal e :
  appends (Forall saves_under_own_id) (on_fatal (M := M) e).
Proof.
  intros f. unfold on_fatal. crunch f; segment; repeat constructor.
Qed.

(** X10.  In every run, for every owner, each [save] the unit makes stores
    a state under that state's own id: it never saves under a fresh or a
    foreign id. *)
Theorem states_are_saved_under_their_own_id self_id fuel (f : frame M) :
  exists l,
    calls (snd (run self_id fuel f)) = calls f ++ l
    /\ Forall saves_under_own_id l.
Proof.
  apply (appends_run (Forall saves_under_own_id)).
  - constructor.
  - apply Forall_app_intro.
  - repeat constructor.
  - repeat constructor.
  - repeat constructor.
  - apply own_id_checkpoint.
  - apply own_id_on_terminate.
  - repeat constructor.
  - apply own_id_on_fatal.
Qed.

(** *** Moves *)

Lemma moves_follow_saves_weaken l :
  moves_follow_saves None l -> forall prev, moves_follow_saves prev l.
Proof.
  destruct l as [|c l]; cbn; [auto|]. intros [Hc Hl] prev. split; [|exact Hl].
  intros i Hi. destruct (Hc i Hi) as [s Hs]. discriminate.
Qed.

Lemma moves_follow_saves_app l1 : forall prev l2,
  moves_follow_saves prev l1 -> moves_follow_saves None l2 ->
  moves_follow_saves prev (l1 ++ l2).
Proof.
  induction l1 as [|c l1 IH]; cbn; intros prev l2 H1 H2.
  - now apply moves_follow_saves_weaken.
  - destruct H1 as [Hc Hl]. split; [exact Hc | now apply IH].
Qed.

Ltac moves :=
  cbn; repeat split; cbn; intros;
  first [ discriminate
        | match goal with
          | E : Some _ = Some _ |- _ =>
              injection E as <-; eexists; reflexivity
          end ].

Lemma moves_checkpoint :
  appends (moves_follow_saves None) (checkpoint (M := M)).
Proof. intros f. unfold checkpoint. crunch f; segment; moves. Qed.

Lemma moves_on_terminate e :
  appends (moves_follow_saves None) (on_terminate (M := M) e).
Proof. intros f. unfold on_terminate. crunch f; segment; moves. Qed.

Lemma moves_on_fatal e :
  appends (moves_follow_saves None) (on_fatal (M := M) e).
Proof. intros f. unfold on_fatal. crunch f; segment; moves. Qed.

(** X11.  In every run, for every owner, each call that moves an id to
    another list ([revive], [terminate_state], [kill_state]) comes
    immediately after a [save] under that same id: the unit never moves a
    state it has not just saved. *)
Theorem list_moves_follow_a_save self_id fuel (f : frame M) :
  exists l,
    calls (snd (run self_id fuel f)) = calls f ++ l
    /\ moves_follow_saves None l.
Proof.
  apply (appends_run (moves_follow_saves None)).
  - exact I.
  - intros l1 l2. apply moves_follow_saves_app.
  - intros w. moves.
  - intros s. moves.
  - intros s e p k. moves.
  - apply moves_checkpoint.
  - apply moves_on_terminate.
  - intros n a. moves.
  - apply moves_on_fatal.
Qed.

End LogInvariants.

Section KillIsFinal.
Context {M : Type} {MM : Manticore M}.

Lemma quiet_of_no_kill l :
  Forall (fun c => ~ is_kill c) l -> quiet_after_kill l.
Proof.
  induction 1 as [|c l Hc Hl IH]; cbn; [exact I|].
  split; [intros Hk; now contradiction Hc | exact IH].
Qed.

Lemma quiet_app_no_kill l1 l2 :
  Forall (fun c => ~ is_kill c) l1 -> quiet_after_kill l2 ->
  quiet_after_kill (l1 ++ l2).
Proof.
  induction 1 as [|c l Hc Hl IH]; cbn; [auto|]. intros H2.
  split; [intros Hk; now contradiction Hc | now apply IH].
Qed.

Lemma quiet_app_publish l1 l2 :
  quiet_after_kill l1 -> Forall is_publish l2 -> quiet_after_kill (l1 ++ l2).
Proof.
  induction l1 as [|c l1 IH]; cbn; intros H1 H2.
  - apply quiet_of_no_kill. eapply Forall_impl; [exact H2|].
    intros [] Hp Hk; cbn in *; contradiction.
  - destruct H1 as [Hc Hl]. split; [|now apply IH].
    intros Hk. apply Forall_app. split; [now apply Hc | exact H2].
Qed.

Ltac no_kill :=
  repeat (apply Forall_cons_2; [cbn; tauto|]); apply Forall_nil_2.

Lemma no_kill_inner_try fuel :
  appends (Forall (fun c => ~ is_kill c)) (inner_try (M := M) fuel).
Proof.
  apply (appends_inner_try (Forall (fun c => ~ is_kill c))).
  - constructor.
  - intros l1 l2 H1 H2. apply Forall_app. now split.
  - intros w. no_kill.
  - intros s. no_kill.
  - intros s e p k. no_kill.
  - intros f. unfold checkpoint. crunch f; segment; no_kill.
  - intros e f. unfold on_terminate. crunch f; segment; no_kill.
Qed.

Lemma quiet_on_fatal e : appends quiet_after_kill (on_fatal (M := M) e).
Proof.
  intros f. unfold on_fatal.
  crunch f; segment; cbn; repeat split; intros; try contradiction;
    repeat constructor.
Qed.

Lemma quiet_iteration fuel (f : frame M) :
  exists l,
    calls (snd (iteration fuel f)) = calls f ++ l
    /\ quiet_after_kill l
    /\ (fst (iteration fuel f) = Normal tt ->
        Forall (fun c => ~ is_kill c) l).
Proof.
  unfold iteration, try_except.
  destruct (no_kill_inner_try fuel f) as (l & Hl & Hn).
  destruct (inner_try fuel f) as [[[]|e| |] f1]; cbn [fst snd] in *;
    try solve [exists l; repeat split; auto using quiet_of_no_kill].
  destruct (quiet_on_fatal e f1) as (l' & Hl' & Hq).
  destruct (on_fatal e f1) as [c f2] eqn:Ef.
  destruct (on_fatal_outcome _ _ _ _ Ef) as (Hnn & _ & _). cbn [fst snd] in *.
  exists (l ++ l'). rewrite Hl', Hl, app_assoc.
  repeat split; [now apply quiet_app_no_kill | intros E; now contradiction Hnn].
Qed.

Lemma quiet_mainloop fuel : appends quiet_after_kill (mainloop (M := M) fuel).
Proof.
  induction fuel as [|n IH]; intros f; cbn [mainloop];
    (destruct (_killed (m f)); [exists []; cbn; rewrite app_nil_r; auto|]).
  - exists []. cbn. rewrite app_nil_r. auto.
  - destruct (quiet_iteration n f) as (l & Hl & Hq & Hn).
    destruct (iteration n f) as [[[]|e| |] f']; cbn in *; eauto.
    destruct (IH f') as (l' & Hl' & Hq'). exists (l ++ l').
    rewrite Hl', Hl, app_assoc. split; [reflexivity|].
    apply quiet_app_no_kill; auto.
Qed.

(** X12.  In every run, for every owner, once the unit has called
    [kill_state] it calls nothing but the event hook: it never acquires,
    advances, saves or moves a state again. *)
Theorem nothing_but_events_after_a_kill self_id fuel (f : frame M) :
  exists l,
    calls (snd (run self_id fuel f)) = calls f ++ l
    /\ quiet_after_kill l.
Proof.
  unfold run, mainloop_and_exit, bind, set_current, publish, call_m. cbn.
  destruct (_publish "will_start_worker" _ _) as [[[]|e] m1]; cbn;
    [|exists [C_publish "will_start_worker" [AInt self_id]]; split;
      [reflexivity | cbn; tauto]].
  match goal with
  | |- context [mainloop fuel ?g] =>
      destruct (quiet_mainloop fuel g) as (l & Hl & Hq);
      destruct (mainloop fuel g) as [[[]|e| |] f2]; cbn in *
  end.
  - destruct (_publish "did_terminate_worker" _ _) as [r m2]. cbn.
    exists ((C_publish "will_start_worker" [AInt self_id] :: l)
            ++ [C_publish "did_terminate_worker" [AInt self_id]]).
    destruct r; cbn; rewrite Hl, <- !app_assoc; cbn;
      (split; [reflexivity|]);
      (split; [tauto|]); apply quiet_app_publish; auto; repeat constructor.
  - exists (C_publish "will_start_worker" [AInt self_id] :: l).
    rewrite Hl, <- app_assoc. cbn. tauto.
  - exists (C_publish "will_start_worker" [AInt self_id] :: l).
    rewrite Hl, <- app_assoc. cbn. tauto.
  - exists (C_publish "will_start_worker" [AInt self_id] :: l).
    rewrite Hl, <- app_assoc. cbn. tauto.
Qed.

End KillIsFinal.

(* ===================================================================== *)
(** * The log queue over many records and many requests *)

Section LogTraffic.

Lemma log_callback_step msg q :
  Queue.wf q ->
  exists q1,
    LogCaptureWorker.log_callback msg q = Some q1
    /\ Queue.maxsize q1 = Queue.maxsize q
    /\ Queue.wf q1
    /\ Queue.items q1 =
         if Nat.eqb (Queue.maxsize q) 0 then Queue.items q ++ [msg]
         else drop (length (Queue.items q) + 1 - Queue.maxsize q)
                   (Queue.items q ++ [msg]).
Proof.
  intros Hwf. unfold LogCaptureWorker.log_callback.
  destruct (Queue.full q) eqn:Hfull.
  - destruct (full_true q Hfull) as [Hpos Hle].
    destruct (Queue.items q) as [|x l] eqn:Hl; cbn in Hle; [lia|].
    assert (Hb : (S (length l) <= Queue.maxsize q)%nat).
    { destruct Hwf as [Hz|Hb]; [lia|].
      unfold Queue.qsize in Hb. now rewrite Hl in Hb. }
    assert (Hget : Queue.get q = Some (x, Queue.mk (Queue.maxsize q) l))
      by (unfold Queue.get; now rewrite Hl).
    rewrite Hget. cbn [fmap option_fmap option_map snd mbind option_bind].
    rewrite put_room by (apply not_full; cbn; lia).
    eexists. repeat split.
    + right. unfold Queue.qsize. cbn. rewrite length_app. cbn. lia.
    + cbn. destruct (Nat.eqb_spec (Queue.maxsize q) 0) as [Hz|_]; [lia|].
      match goal with
      | |- context [drop ?n _] => replace n with 1%nat by lia
      end.
      reflexivity.
  - cbn [mbind option_bind]. rewrite (put_room _ _ Hfull).
    eexists. repeat split.
    + unfold Queue.wf, Queue.qsize. cbn. rewrite length_app. cbn.
      destruct (full_false q Hfull) as [Hz|Hlt]; [left|right]; lia.
    + cbn. destruct (Nat.eqb_spec (Queue.maxsize q) 0) as [Hz|Hnz];
        [reflexivity|].
      destruct (full_false q Hfull) as [Hz|Hlt]; [lia|].
      match goal with
      | |- context [drop ?n _] => replace n with 0%nat by lia
      end.
      reflexivity.
Qed.

(** X13.  Records pushed one after the other through [log_callback] never
    block, and the queue ends up holding the most recent ones: all of them
    when the queue is unbounded, otherwise the last [maxsize] of what it
    held followed by what was pushed, in order. *)
Theorem log_queue_keeps_the_most_recent_records msgs : forall q,
  Queue.wf q ->
  exists q',
    log_all msgs q = Some q'
    /\ Queue.maxsize q' = Queue.maxsize q
    /\ Queue.wf q'
    /\ Queue.items q' =
         if Nat.eqb (Queue.maxsize q) 0 then Queue.items q ++ msgs
         else drop (length (Queue.items q ++ msgs) - Queue.maxsize q)
                   (Queue.items q ++ msgs).
Proof.
  induction msgs as [|msg rest IH]; intros q Hwf; cbn [log_all].
  - exists q. repeat split; [assumption|]. rewrite app_nil_r.
    destruct (Nat.eqb_spec (Queue.maxsize q) 0) as [Hz|Hnz]; [reflexivity|].
    destruct Hwf as [Hz|Hb]; [lia|]. unfold Queue.qsize in Hb.
    replace (length (Queue.items q) - Queue.maxsize q)%nat with 0%nat by lia.
    reflexivity.
  - destruct (log_callback_step msg q Hwf) as (q1 & Hstep & Hcap & Hwf1 & Hit).
    rewrite Hstep. cbn [mbind option_bind].
    destruct (IH q1 Hwf1) as (q' & Hall & Hcap' & Hwf' & Hit').
    exists q'. repeat split; [assumption | congruence | assumption |].
    rewrite Hit', Hcap, Hit.
    destruct (Nat.eqb_spec (Queue.maxsize q) 0) as [Hz|Hnz].
    + now rewrite <- app_assoc.
    + assert (Hlen : (length (Queue.items q) <= Queue.maxsize q)%nat).
      { destruct Hwf as [Hz|Hb]; [lia | exact Hb]. }
      set (d := (length (Queue.items q) + 1 - Queue.maxsize q)%nat).
      assert (Hd : (d <= length (Queue.items q ++ [msg]))%nat)
        by (rewrite length_app; cbn; lia).
      rewrite <- (drop_app_le _ rest d Hd), <- app_assoc. cbn [app].
      rewrite drop_drop. f_equal.
      rewrite length_drop, !length_app. cbn [length]. lia.
Qed.

(** The reply to one connection and the queue it leaves. *)
Lemma handle_reply {bytes} (ser : state_pb2.MessageList -> bytes) q :
  LogTCPHandler.handle ser [] q =
    Some ([ser (state_pb2.mkLogMessage <$> take 50 (Queue.items q))], true,
          Queue.mk (Queue.maxsize q) (drop 50 (Queue.items q))).
Proof.
  unfold LogTCPHandler.handle, LogCaptureWorker.dump_logs.
  rewrite drain_take_drop. reflexivity.
Qed.

(** X14.  [n] connections to the log server, served one after the other,
    each receive exactly one message; together the messages carry the
    first [50 * n] records of the queue, in order, at most 50 per message,
    without loss or repetition, and the queue keeps the rest. *)
Theorem successive_log_dumps_partition_the_queue {bytes}
    (ser : state_pb2.MessageList -> bytes) n : forall q,
  exists chunks,
    LogTCPHandler.serve ser n q =
      Some ((fun c => [ser (state_pb2.mkLogMessage <$> c)]) <$> chunks,
            Queue.mk (Queue.maxsize q) (drop (50 * n) (Queue.items q)))
    /\ length chunks = n
    /\ concat chunks = take (50 * n) (Queue.items q)
    /\ Forall (fun c => (length c <= 50)%nat) chunks.
Proof.
  induction n as [|n IH]; intros q; cbn [LogTCPHandler.serve].
  - exists []. destruct q. repeat split. constructor.
  - rewrite handle_reply. cbn [mbind option_bind].
    destruct (IH (Queue.mk (Queue.maxsize q) (drop 50 (Queue.items q))))
      as (chunks & Hserve & Hlen & Hcat & Hall).
    rewrite Hserve. cbn [mbind option_bind].
    exists (take 50 (Queue.items q) :: chunks).
    cbn [Queue.maxsize Queue.items] in Hcat |- *.
    replace (50 * S n)%nat with (50 + 50 * n)%nat by lia.
    rewrite fmap_cons. cbn [concat length].
    split; [|split; [|split]].
    + now rewrite drop_drop.
    + now rewrite Hlen.
    + now rewrite Hcat, take_take_drop.
    + constructor; [rewrite length_take; lia | exact Hall].
Qed.

End LogTraffic.

(* ===================================================================== *)
(** * More on the state snapshot *)

Section SnapshotShape.



(** X16.  A descriptor without a recorded change of list is rendered with a
    waiting time of 0, whatever the clock reads. *)
Theorem missing_timestamp_renders_zero_wait now st :
  field_updated_at st !! "state_list" = None ->
  wait_time_of now st = 0.
Proof.
  intros E. unfold wait_time_of. rewrite E. cbn [default].
  rewrite Z.sub_diag. vm_compute. reflexivity.
Qed.

End SnapshotShape.

(* ===================================================================== *)
(** * The further properties on concrete runs *)

Section MoreRuns.

Lemma iteration_ends_holding_no_state_witness :
  let MM := Registry.manticore (always (Signal (TerminateState "done"))) no_fault in
  fst (iteration (MM := MM) 5 (start (Registry.seed [S0]))) = Normal tt
  /\ current_state (snd (iteration (MM := MM) 5 (start (Registry.seed [S0]))))
     = None.
Proof.
  intros MM. split; [reflexivity|].
  apply (iteration_ends_holding_no_state (MM := MM) 5
           (start (Registry.seed [S0]))).
  left. reflexivity.
Defined.

Lemma run_is_bracketed_witness :
  let MM := Registry.manticore (always (Signal (TerminateState "done"))) no_fault in
  current_state (snd (run (MM := MM) 7 10 (start (Registry.seed [S0])))) = None
  /\ exists l,
      calls (snd (run (MM := MM) 7 10 (start (Registry.seed [S0])))) =
        [] ++ C_publish "will_start_worker" [AInt 7]
              :: l ++ [C_publish "did_terminate_worker" [AInt 7]].
Proof.
  intros MM.
  apply (run_is_bracketed_by_lifecycle_events (MM := MM) 7 10
           (start (Registry.seed [S0]))).
  reflexivity.
Defined.

Lemma unit_started_after_kill_witness :
  let MM := Registry.manticore (always Step) no_fault in
  run (MM := MM) 7 10 (start killed_registry) =
    (Normal tt,
     Frame None killed_registry
       [C_publish "will_start_worker" [AInt 7];
        C_publish "did_terminate_worker" [AInt 7]]).
Proof.
  intros MM.
  apply (unit_started_after_kill_acquires_nothing (MM := MM) 7 10
           (start killed_registry) killed_registry killed_registry);
    reflexivity.
Defined.

Lemma exhausted_registry_witness :
  let MM := Registry.manticore (always Step) no_fault in
  mainloop_and_exit (MM := MM) 7 6 (start (Registry.seed [])) =
    (Normal tt,
     Frame None (Registry.seed [])
       [C_get_state true; C_publish "did_terminate_worker" [AInt 7]]).
Proof.
  intros MM.
  apply (exhausted_registry_retires_unit (MM := MM) 7 5
           (start (Registry.seed [])) (Registry.seed []) (Registry.seed []));
    reflexivity.
Defined.

Lemma failed_ownership_assertion_witness :
  let r := Registry.seed [S0] in
  let r' := snd (Registry.kill_state 0 (snd (Registry.save S0 0 r))) in
  acquired_assertion (MM := careless_manticore) S0 r = false
  /\ mainloop_and_exit (MM := careless_manticore) 7 6 (start r) =
       (Normal tt,
        Frame None r'
          [C_get_state true;
           C_publish "will_kill_state" [AState (Some S0); AExn AssertionError];
           C_save S0 0;
           C_kill_state 0;
           C_publish "did_kill_state" [AState (Some S0); AExn AssertionError];
           C_publish "did_terminate_worker" [AInt 7]]).
Proof.
  intros r r'. split; [reflexivity|].
  pose (m3 := snd (Registry.save S0 0 r)).
  apply (failed_ownership_assertion_kills_unexecuted_state
           (MM := careless_manticore) 7 5 (start r) S0 r r m3 r' r' r');
    reflexivity.
Defined.

Lemma failure_inside_fatal_guard_witness :
  let MM := Registry.manticore (always (Signal (OtherError "boom"))) save_fails in
  fst (mainloop_and_exit (MM := MM) 7 6 (start (Registry.seed [S0])))
    = Throw (OtherError "disk full")
  /\ calls (snd (mainloop_and_exit (MM := MM) 7 6 (start (Registry.seed [S0]))))
    = [C_get_state true;
       C_execute S0;
       C_publish "will_kill_state" [AState (Some S0); AExn (OtherError "boom")];
       C_save S0 0].
Proof.
  intros MM.
  pose (f := start (Registry.seed [S0])).
  pose (f1 := snd (inner_try (MM := MM) 5 f)).
  pose (f2 := snd (on_fatal (MM := MM) (OtherError "boom") f1)).
  destruct (failure_inside_fatal_guard_escapes_run (MM := MM) 7 5 f
              (OtherError "boom") f1 (OtherError "disk full") f2
              eq_refl eq_refl eq_refl) as [Hrun _].
  exact (conj (f_equal fst Hrun) (f_equal (fun r => calls (snd r)) Hrun)).
Defined.

Lemma fork_result_is_never_used_witness :
  let MM := Registry.manticore fork_then_finish no_fault in
  let r1 := snd (Registry.get_state true (Registry.seed [S0])) in
  fst (Registry.fork (Some S0) 2 "keep" 0 r1) = Ok (Some 1)
  /\ iteration (MM := MM) 5 (start (Registry.seed [S0])) =
       (Normal tt,
        Frame None (snd (Registry.fork (Some S0) 2 "keep" 0 r1))
          [C_get_state true; C_execute S0; C_fork (Some S0) 2 "keep" 0]).
Proof.
  intros MM r1. split; [reflexivity|].
  pose (f := start (Registry.seed [S0])).
  pose (f1 := snd (try_suite (MM := MM) 5 f)).
  destruct (fork_result_is_never_used (MM := MM) 5 f f1 "branch" 2 "keep" 0
              (Some 1) (snd (Registry.fork (Some S0) 2 "keep" 0 r1))
              eq_refl eq_refl eq_refl) as [Hit _].
  exact Hit.
Defined.

Lemma terminate_signal_during_acquisition_witness :
  let MM := Registry.manticore (always Step) get_state_terminates in
  mainloop (MM := MM) 6 (start (Registry.seed [S0])) =
    (Normal tt,
     Frame None (Registry.seed [S0])
       [C_get_state true;
        C_publish "will_terminate_state"
          [AState None; AExn (TerminateState "shutdown")]]).
Proof.
  intros MM.
  destruct (terminate_signal_during_acquisition_retires_unit (MM := MM)
              5 (start (Registry.seed [S0])) "shutdown"
              (Registry.seed [S0]) (Registry.seed [S0])
              eq_refl eq_refl eq_refl eq_refl) as [_ Hloop].
  exact Hloop.
Defined.

Lemma log_queue_window_witness :
  Queue.wf full_queue
  /\ exists q',
      log_all ["third"; "fourth"; "fifth"] full_queue = Some q'
      /\ Queue.items q' = ["fourth"; "fifth"].
Proof.
  assert (Hwf : Queue.wf full_queue) by (right; cbn; lia).
  split; [exact Hwf|].
  destruct (log_queue_keeps_the_most_recent_records
              ["third"; "fourth"; "fifth"] full_queue Hwf)
    as (q' & Hall & _ & _ & Hitems).
  exists q'. split; [exact Hall | exact Hitems].
Defined.

Lemma missing_timestamp_witness :
  field_updated_at fresh_descriptor !! "state_list" = None
  /\ wait_time_of 1730678400000000 fresh_descriptor = 0.
Proof.
  split; [reflexivity|].
  apply (missing_timestamp_renders_zero_wait 1730678400000000 fresh_descriptor).
  reflexivity.
Defined.

End MoreRuns.

Section SnapshotRequests.
Context {bytes : Type}.
Variable ser : state_pb2.StateList -> bytes.


End SnapshotRequests.
